(** * MGNREGA dashboard server (server.js): a shallow embedding

    The first part follows the layout of [server.js]:

    - [Generator]   : [generateDistrictData] and its sine draw;
    - [RateLimit]   : the fixed-window [rateLimiter] middleware;
    - [Number]      : the numbers [getDistance] computes with;
    - [Directory]   : [MAHARASHTRA_DISTRICTS], [getDistance] and the
                      nearest-district loop;
    - [Store]       : the tables [districts] and [performance] and the SQL
                      statements the program sends;
    - [Api]         : the route handlers;
    - [Bootstrap]   : [initDatabase].

    The second part states and proves the properties, one module of facts
    per module of definitions.

    Numbers.  JavaScript numbers are IEEE doubles.  Every integer the program
    manipulates (seeds, counters, epoch milliseconds, months, years) is far
    below 2^53 and is modelled as [Z].  A decimal (a coordinate of the
    directory, of a stored row or of a request body) is a rational, and
    [Number.ofDecimal] is the double it is read as: an infinity beyond the
    range of the doubles, zero below it.  The two places where the program
    calls transcendental functions ([Math.sin] in the generator, the
    haversine formula in [getDistance]) are modelled with the real functions
    of the Standard Library: the rounding of the double arithmetic inside
    the range is idealised.  In [getDistance], whose first two arguments
    come from the request, the infinities, the overflow of a result and
    [NaN] are kept ([Number]).  Everything else is kept as written.

    Effects.  A handler is a function of what it reads (the request, the
    date, the cache, the tables or the failure of the query) to the response
    it sends and the cache it leaves. *)

From Stdlib Require Import ZArith QArith Qabs Reals Qreals Lra Lia Ascii String.
From stdpp Require Import gmap strings list sorting.

#[local] Open Scope Z_scope.

(** ** Synthetic data generator (server.js, lines 98-115) *)

Module Generator.

(** [districtCode.charCodeAt(0)]: the code unit of the first character,
    [NaN] (here [None]) on the empty string.  District codes are strings of
    one-byte characters. *)
Definition charCodeAt0 (s : string) : option Z :=
  match s with
  | EmptyString => None
  | String c _ => Some (Z.of_nat (Ascii.nat_of_ascii c))
  end.

(** [const seed = districtCode.charCodeAt(0) + month + year] *)
Definition seedOf (districtCode : string) (month year : Z) : option Z :=
  c ← charCodeAt0 districtCode; Some (c + month + year).

(** [Math.floor(Math.sin(seed * 9999) * 10000)], the one value every metric
    is derived from. *)
Definition sineDraw (seed : Z) : Z :=
  Zfloor (sin (IZR (seed * 9999)) * 10000)%R.

(** [random(min, max)] once the draw is known.  JavaScript's [%] truncates
    towards zero and takes the sign of the dividend: it is [Z.rem]. *)
Definition randomOf (draw min max : Z) : Z :=
  Z.rem draw (max - min) + min.

(** The object literal returned by [generateDistrictData]; a field is
    [None] when the JavaScript value is [NaN]. *)
Record Metrics := mkMetrics {
  totalJobCards : option Z;
  activeWorkers : option Z;
  completedWorks : option Z;
  ongoingWorks : option Z;
  totalExpenditure : option Z;
  avgWagePaid : option Z;
  workDemand : option Z;
  workProvided : option Z;
  avgPaymentDays : option Z;
  womenParticipation : option Z
}.

(** The body of [generateDistrictData] for a given value of the closure's
    [Math.floor(Math.sin(seed * 9999) * 10000)]. *)
Definition metricsOf (draw : option Z) : Metrics :=
  let random min max := (fun d => randomOf d min max) <$> draw in
  {| totalJobCards := random 80000 150000;
     activeWorkers := random 40000 90000;
     completedWorks := random 150 600;
     ongoingWorks := random 50 200;
     totalExpenditure := random 80 200;
     avgWagePaid := random 250 320;
     workDemand := random 50000 100000;
     workProvided := random 45000 95000;
     avgPaymentDays := random 8 18;
     womenParticipation := random 45 65 |}.

Definition generateDistrictData (districtCode : string) (month year : Z)
  : Metrics :=
  metricsOf (sineDraw <$> seedOf districtCode month year).

(** [lo <= v < hi] for a metric that is a number. *)
Definition within (lo hi : Z) (v : option Z) : Prop :=
  match v with
  | Some n => lo <= n < hi
  | None => False
  end.

(** The ten documented ranges, as one predicate on a record. *)
Definition inDocumentedRanges (m : Metrics) : Prop :=
  within 80000 150000 (totalJobCards m) /\
  within 40000 90000 (activeWorkers m) /\
  within 150 600 (completedWorks m) /\
  within 50 200 (ongoingWorks m) /\
  within 80 200 (totalExpenditure m) /\
  within 250 320 (avgWagePaid m) /\
  within 50000 100000 (workDemand m) /\
  within 45000 95000 (workProvided m) /\
  within 8 18 (avgPaymentDays m) /\
  within 45 65 (womenParticipation m).

(** Every one of the ten metrics is a number. *)
Definition allPresent (m : Metrics) : Prop :=
  is_Some (totalJobCards m) /\ is_Some (activeWorkers m) /\
  is_Some (completedWorks m) /\ is_Some (ongoingWorks m) /\
  is_Some (totalExpenditure m) /\ is_Some (avgWagePaid m) /\
  is_Some (workDemand m) /\ is_Some (workProvided m) /\
  is_Some (avgPaymentDays m) /\ is_Some (womenParticipation m).

End Generator.

(** ** Rate limiting middleware (server.js, lines 45-63) *)

Module RateLimit.

(** The object stored under [rateLimit[ip]]. *)
Record Window := mkWindow { count : Z; resetTime : Z }.

(** [const RATE_LIMIT = 100] *)
Definition RATE_LIMIT : Z := 100.

(** What the middleware does with the request: call [next()] or answer
    itself with [res.status(..).json({ error })]. *)
Inductive Verdict :=
| Next
| Reject (status : Z) (error : string).

(** One call of [rateLimiter].  [rateLimit] is the module-level object
    keyed by [req.ip], [now] is [Date.now()].  The keys are socket
    addresses, so no key names a property inherited from
    [Object.prototype], and a stored window object is always truthy. *)
Definition rateLimiter (ip : string) (now : Z) (rateLimit : gmap string Window)
  : gmap string Window * Verdict :=
  match rateLimit !! ip with
  | None =>
      (<[ip := mkWindow 1 (now + 60000)]> rateLimit, Next)
  | Some w =>
      if resetTime w <? now then
        (<[ip := mkWindow 1 (now + 60000)]> rateLimit, Next)
      else if RATE_LIMIT <=? count w then
        (rateLimit, Reject 429 "Too many requests")
      else
        (<[ip := mkWindow (count w + 1) (resetTime w)]> rateLimit, Next)
  end.

(** A request as the middleware sees it: the client address and the time
    of arrival. *)
Definition Request : Type := string * Z.

(** The server handles requests one after the other; the verdicts are
    listed in the order of the requests. *)
Fixpoint serve (reqs : list Request) (rateLimit : gmap string Window)
  : gmap string Window * list Verdict :=
  match reqs with
  | [] => (rateLimit, [])
  | (ip, now) :: rest =>
      let '(rl1, v) := rateLimiter ip now rateLimit in
      let '(rl2, vs) := serve rest rl1 in
      (rl2, v :: vs)
  end.

(** The verdicts given to one client among those of a run. *)
Fixpoint verdictsOf (ip : string) (reqs : list Request) (vs : list Verdict)
  : list Verdict :=
  match reqs, vs with
  | (ip', _) :: reqs', v :: vs' =>
      if decide (ip' = ip) then v :: verdictsOf ip reqs' vs'
      else verdictsOf ip reqs' vs'
  | _, _ => []
  end.

(** The number of requests of one client in a run. *)
Definition requestsOf (ip : string) (reqs : list Request) : nat :=
  length (filter (fun r => r.1 = ip) reqs).

(** Every stored count is between 1 and the limit. *)
Definition bounded (rl : gmap string Window) : Prop :=
  forall ip w, rl !! ip = Some w -> 1 <= count w <= RATE_LIMIT.

(** The requests of [ip] in [reqs] all arrive by [deadline]. *)
Definition arriveBy (ip : string) (deadline : Z) (reqs : list Request) : Prop :=
  Forall (fun r => r.1 = ip -> r.2 <= deadline) reqs.

End RateLimit.

(** ** Numbers (the range of the doubles) *)

Module Number.
#[local] Open Scope R_scope.

(** A JavaScript number as the distance computation meets it: a finite
    value, an infinity or [NaN].  The rounding of a finite result inside
    the range of the doubles is idealised; a result outside that range is
    an infinity, as it is in the program.  The sign of a zero is not
    kept. *)
Inductive Number :=
| Finite (r : R)
| Infinity (negative : bool)
| NaN.

(** A result of this magnitude or more rounds to an infinity: half an ulp
    above [Number.MAX_VALUE = 2^1024 - 2^971]. *)
Definition OVERFLOW : Z := 2 ^ 1024 - 2 ^ 970.

(** A decimal of this magnitude or less is read as zero: half of
    [Number.MIN_VALUE = 2^-1074]. *)
Definition UNDERFLOW : Q := Qmake 1 (2 ^ 1075).

Definition sign (r : R) : bool := if Rlt_dec r 0 then true else false.

(** The number a finite result is stored as. *)
Definition rounded (r : R) : Number :=
  if Rlt_dec (Rabs r) (IZR OVERFLOW) then Finite r else Infinity (sign r).

(** The real a decimal inside the range is read as. *)
Definition decimal (q : Q) : R :=
  if Qle_bool (Qabs q) UNDERFLOW then 0 else Q2R q.

(** The number a decimal is read as: a number literal of the program, a
    number of a JSON body ([JSON.parse]), or a [DECIMAL] column, which the
    driver hands over as a string and the arithmetic converts. *)
Definition ofDecimal (q : Q) : Number :=
  if Qle_bool (inject_Z OVERFLOW) (Qabs q) then Infinity (negb (Qle_bool 0 q))
  else Finite (decimal q).

(** [!a] *)
Definition falsy (a : Number) : bool :=
  match a with
  | Finite x => if Req_dec_T x 0 then true else false
  | Infinity _ => false
  | NaN => true
  end.

(** [- a] *)
Definition neg (a : Number) : Number :=
  match a with
  | Finite x => Finite (- x)
  | Infinity s => Infinity (negb s)
  | NaN => NaN
  end.

(** [a + b] *)
Definition add (a b : Number) : Number :=
  match a, b with
  | Finite x, Finite y => rounded (x + y)
  | Finite _, Infinity s => Infinity s
  | Infinity s, Finite _ => Infinity s
  | Infinity s, Infinity s' => if Bool.eqb s s' then Infinity s else NaN
  | _, _ => NaN
  end.

(** [a - b] *)
Definition sub (a b : Number) : Number := add a (neg b).

(** [a * b] *)
Definition mul (a b : Number) : Number :=
  match a, b with
  | Finite x, Finite y => rounded (x * y)
  | Finite x, Infinity s =>
      if Req_dec_T x 0 then NaN else Infinity (xorb (sign x) s)
  | Infinity s, Finite y =>
      if Req_dec_T y 0 then NaN else Infinity (xorb s (sign y))
  | Infinity s, Infinity s' => Infinity (xorb s s')
  | _, _ => NaN
  end.

(** [a / k] for a literal [k]: the program divides by 180 and by 2 only. *)
Definition div (a : Number) (k : positive) : Number :=
  match a with
  | Finite x => Finite (x / IZR (Zpos k))
  | Infinity s => Infinity s
  | NaN => NaN
  end.

(** [a < b] *)
Definition ltb (a b : Number) : bool :=
  match a, b with
  | Finite x, Finite y => if Rlt_dec x y then true else false
  | Finite _, Infinity s => negb s
  | Infinity s, Finite _ => s
  | Infinity s, Infinity s' => s && negb s'
  | _, _ => false
  end.

Definition Math_PI : Number := Finite PI.

Definition Math_sin (a : Number) : Number :=
  match a with
  | Finite x => Finite (sin x)
  | _ => NaN
  end.

Definition Math_cos (a : Number) : Number :=
  match a with
  | Finite x => Finite (cos x)
  | _ => NaN
  end.

Definition Math_sqrt (a : Number) : Number :=
  match a with
  | Finite x => if Rlt_dec x 0 then NaN else Finite (sqrt x)
  | Infinity false => Infinity false
  | _ => NaN
  end.

(** [Math.atan2(y, x)] on the reals. *)
Definition atan2 (y x : R) : R :=
  if Rlt_dec 0 x then atan (y / x)
  else if Rlt_dec x 0 then
    if Rle_dec 0 y then atan (y / x) + PI else atan (y / x) - PI
  else if Rlt_dec 0 y then PI / 2
  else if Rlt_dec y 0 then - (PI / 2)
  else 0.

Definition Math_atan2 (a b : Number) : Number :=
  match a, b with
  | Finite y, Finite x => Finite (atan2 y x)
  | Finite y, Infinity false => Finite 0
  | Finite y, Infinity true => Finite (if Rlt_dec y 0 then - PI else PI)
  | Infinity s, Finite _ => Finite (if s then - (PI / 2) else PI / 2)
  | Infinity s, Infinity false => Finite (if s then - (PI / 4) else PI / 4)
  | Infinity s, Infinity true =>
      Finite (if s then - (3 * PI / 4) else 3 * PI / 4)
  | _, _ => NaN
  end.

Declare Scope number_scope.
Delimit Scope number_scope with number.
Bind Scope number_scope with Number.
Infix "+" := add : number_scope.
Infix "-" := sub : number_scope.
Infix "*" := mul : number_scope.
Infix "/" := div : number_scope.
Infix "<?" := ltb : number_scope.

End Number.

(** ** District directory and distance (server.js, lines 67-96) *)

Module Directory.
Import Number.

(** An entry of the directory, also the shape of the rows the district
    queries select.  Coordinates are decimal literals. *)
Record District := mkDistrict {
  name : string;
  lat : Q;
  lng : Q;
  code : string
}.

Definition MAHARASHTRA_DISTRICTS : list District :=
  [ mkDistrict "Kolhapur" 16.7050 74.2433 "KOL";
    mkDistrict "Mumbai Suburban" 19.0760 72.8777 "MUM";
    mkDistrict "Pune" 18.5204 73.8567 "PUN";
    mkDistrict "Nagpur" 21.1458 79.0882 "NAG";
    mkDistrict "Nashik" 19.9975 73.7898 "NAS";
    mkDistrict "Aurangabad" 19.8762 75.3433 "AUR";
    mkDistrict "Solapur" 17.6599 75.9064 "SOL";
    mkDistrict "Thane" 19.2183 72.9781 "THA";
    mkDistrict "Ahmednagar" 19.0948 74.7480 "AHM";
    mkDistrict "Satara" 17.6805 73.9903 "SAT";
    mkDistrict "Sangli" 16.8524 74.5815 "SAN";
    mkDistrict "Jalgaon" 21.0077 75.5626 "JAL";
    mkDistrict "Amravati" 20.9320 77.7523 "AMR";
    mkDistrict "Raigad" 18.5204 73.0169 "RAI";
    mkDistrict "Ratnagiri" 16.9902 73.3120 "RAT" ]%Q.

#[local] Open Scope R_scope.

(** The haversine term [a] of [getDistance], on the reals. *)
Definition haversine (lat1 lng1 lat2 lng2 : R) : R :=
  let dLat := (lat2 - lat1) * PI / 180 in
  let dLng := (lng2 - lng1) * PI / 180 in
  sin (dLat / 2) * sin (dLat / 2) +
  cos (lat1 * PI / 180) * cos (lat2 * PI / 180) *
  sin (dLng / 2) * sin (dLng / 2).

(** [c = 2 * Math.atan2(Math.sqrt(a), Math.sqrt(1 - a))], on the reals. *)
Definition centralAngle (a : R) : R :=
  2 * atan2 (sqrt a) (sqrt (1 - a)).

(** The value of [getDistance] when no intermediate result leaves the
    range. *)
Definition greatCircle (lat1 lng1 lat2 lng2 : R) : R :=
  6371 * centralAngle (haversine lat1 lng1 lat2 lng2).

Definition getDistance (lat1 lng1 lat2 lng2 : Number) : Number :=
  (let R := Finite 6371 in
   let dLat := (lat2 - lat1) * Math_PI / 180 in
   let dLng := (lng2 - lng1) * Math_PI / 180 in
   let a := Math_sin (dLat / 2) * Math_sin (dLat / 2) +
            Math_cos (lat1 * Math_PI / 180) * Math_cos (lat2 * Math_PI / 180) *
            Math_sin (dLng / 2) * Math_sin (dLng / 2) in
   let c := Finite 2 * Math_atan2 (Math_sqrt a) (Math_sqrt (Finite 1 - a)) in
   R * c)%number.

(** The loop of the location handler: [minDistance] starts at [Infinity]
    and [nearestDistrict] at [null]; a district replaces the current one
    only when [distance < minDistance], which is false of a [NaN]. *)
Definition scanStep (lat0 lng0 : Number) (acc : option District * Number)
    (district : District) : option District * Number :=
  let distance :=
    getDistance lat0 lng0 (ofDecimal (lat district)) (ofDecimal (lng district)) in
  if (distance <? acc.2)%number then (Some district, distance) else acc.

Definition nearestDistrict (lat0 lng0 : Number) (districts : list District)
  : option District :=
  (foldl (scanStep lat0 lng0) (None, Infinity false) districts).1.

(** The distance the loop computes for a district from a point of finite
    coordinates, when nothing overflows. *)
Definition distanceTo (lat0 lng0 : R) (d : District) : R :=
  greatCircle lat0 lng0 (decimal (lat d)) (decimal (lng d)).

(** Coordinates that are degrees of latitude and of longitude. *)
Definition degrees (lat0 lng0 : Q) : Prop :=
  (Qabs lat0 <= 90)%Q /\ (Qabs lng0 <= 180)%Q.

(** What the loop holds after the districts [seen]: nothing before the first
    district, and afterwards the first of the districts seen that no other
    one beats. *)
Definition scanned (lat0 lng0 : R) (seen : list District)
    (acc : option District * Number)
  : Prop :=
  match acc with
  | (None, Infinity false) => seen = []
  | (Some d, Finite m) =>
      m = distanceTo lat0 lng0 d /\
      (forall d', d' ∈ seen -> distanceTo lat0 lng0 d <= distanceTo lat0 lng0 d') /\
      exists before after,
        seen = before ++ d :: after /\
        forall d', d' ∈ before -> distanceTo lat0 lng0 d < distanceTo lat0 lng0 d'
  | _ => False
  end.

(** The entry of the directory for Pune. *)
Definition Pune : District := mkDistrict "Pune" 18.5204%Q 73.8567%Q "PUN".

End Directory.

(** ** Storage layer: the two tables and the queries of server.js *)

Module Store.
Import Generator Directory.

(** A row of [districts].  The [SERIAL] id is assigned by the database and
    read by no query of the program; it is left out. *)
Record DistrictRow := mkDistrictRow {
  d_name : string;
  d_code : string;
  d_lat : Q;
  d_lng : Q;
  d_state : string
}.

(** A row of [performance]; [data] is the JSONB payload, which the program
    only ever writes as [JSON.stringify] of a metrics record. *)
Record PerfRow := mkPerfRow {
  district_code : string;
  month : Z;
  year : Z;
  data : Metrics;
  updated_at : Z
}.

(** The tables are lists of rows in insertion order. *)
Record Tables := mkTables {
  districts : list DistrictRow;
  performance : list PerfRow
}.

Definition emptyTables : Tables := mkTables [] [].

(** The columns [name, code, lat, lng] of a row. *)
Definition toDistrict (r : DistrictRow) : District :=
  mkDistrict (d_name r) (d_lat r) (d_lng r) (d_code r).

(** [ORDER BY name], with the byte-wise order on strings. *)
Definition nameLe (a b : District) : Prop :=
  String.leb (name a) (name b) = true.

#[global] Instance nameLe_dec : RelDecision nameLe.
Proof. intros a b. unfold nameLe. apply _. Defined.

(** [SELECT name, code, lat, lng FROM districts ORDER BY name] *)
Definition selectDistrictsByName (t : Tables) : list District :=
  merge_sort nameLe (toDistrict <$> districts t).

(** [SELECT name, code, lat, lng FROM districts] *)
Definition selectDistricts (t : Tables) : list District :=
  toDistrict <$> districts t.

(** [SELECT code FROM districts] *)
Definition selectCodes (t : Tables) : list string :=
  d_code <$> districts t.

(** [ORDER BY year DESC, month DESC]: [a] comes no later than [b]. *)
Definition recentFirst (a b : PerfRow) : Prop :=
  year b < year a \/ (year b = year a /\ month b <= month a).

#[global] Instance recentFirst_dec : RelDecision recentFirst.
Proof. intros a b. unfold recentFirst. apply _. Defined.

(** [SELECT .. FROM performance WHERE district_code = $1
     ORDER BY year DESC, month DESC LIMIT n] *)
Definition selectRecent (districtCode : string) (n : nat) (t : Tables)
  : list PerfRow :=
  take n (merge_sort recentFirst
            (filter (fun r => district_code r = districtCode) (performance t))).

(** [INSERT INTO districts (name, code, lat, lng) VALUES ..
     ON CONFLICT (code) DO NOTHING]; [state] takes its default. *)
Definition insertDistrict (d : District) (rows : list DistrictRow)
  : list DistrictRow :=
  if decide (code d ∈ d_code <$> rows) then rows
  else rows ++ [mkDistrictRow (name d) (code d) (lat d) (lng d) "Maharashtra"].

(** The key of the constraint [UNIQUE(district_code, month, year)]. *)
Definition perfKey (r : PerfRow) : string * Z * Z :=
  (district_code r, month r, year r).

(** The [CHECK] constraints of [performance]. *)
Definition perfChecks (r : PerfRow) : bool :=
  (0 <=? month r) && (month r <=? 11) && (2024 <=? year r).

(** [INSERT INTO performance .. ON CONFLICT (district_code, month, year)
     DO NOTHING].  A row that fails a [CHECK] makes the query fail
     ([None]). *)
Definition insertPerformance (r : PerfRow) (rows : list PerfRow)
  : option (list PerfRow) :=
  if perfChecks r then
    Some (if decide (perfKey r ∈ perfKey <$> rows) then rows else rows ++ [r])
  else None.

End Store.

(** ** Route handlers (server.js, lines 117-240) *)

Module Api.
Import Generator Number Directory.

(** [new Date()] as far as the handlers look at it. *)
Record Date := mkDate { getFullYear : Z; getMonth : Z }.

(** [new Date(year, monthIndex, 1)]: a month index outside 0..11 carries
    into the year. *)
Definition newDate (year monthIndex : Z) : Date :=
  mkDate (year + monthIndex / 12) (monthIndex mod 12).

(** An element of the trends array. *)
Record Trend := mkTrend {
  month : string;
  year : Z;
  workers : option Z;
  expenditure : option Z;
  works : option Z
}.

(** What [res.json] is given. *)
Inductive Payload :=
| PDistricts (districts : list District)
| PMetrics (data : Metrics)
| PTrends (trends : list Trend)
| PNearest (district : option District)
| PError (error : string).

Record Response := mkResponse { status : Z; body : Payload }.

(** [res.json(x)] with the default status. *)
Definition json (p : Payload) : Response := mkResponse 200 p.

(** The entries of the NodeCache instance, by the three disjoint families
    of keys the handlers use: ['districts'], ['perf_' + code] and
    ['trends_' + code].  An entry past its time to live is one that is not
    there. *)
Record Cache := mkCache {
  cachedDistricts : option (list District);
  cachedPerf : gmap string Metrics;
  cachedTrends : gmap string (list Trend)
}.

Definition emptyCache : Cache := mkCache None ∅ ∅.

Definition setDistricts (ds : list District) (c : Cache) : Cache :=
  mkCache (Some ds) (cachedPerf c) (cachedTrends c).

Definition setPerf (districtCode : string) (m : Metrics) (c : Cache) : Cache :=
  mkCache (cachedDistricts c) (<[districtCode := m]> (cachedPerf c)) (cachedTrends c).

Definition setTrends (districtCode : string) (ts : list Trend) (c : Cache) : Cache :=
  mkCache (cachedDistricts c) (cachedPerf c) (<[districtCode := ts]> (cachedTrends c)).

(** The storage layer as a handler meets it: the tables, or [None] when
    [pool.query] rejects. *)
Definition Db : Type := option Store.Tables.

(** [result.rows.length > 0 ? result.rows : MAHARASHTRA_DISTRICTS] *)
Definition rowsOrDirectory (rows : list District) : list District :=
  match rows with
  | [] => MAHARASHTRA_DISTRICTS
  | _ :: _ => rows
  end.

(** [GET /api/districts] *)
Definition getDistricts (cache : Cache) (db : Db) : Response * Cache :=
  match cachedDistricts cache with
  | Some cached => (json (PDistricts cached), cache)
  | None =>
      match db with
      | Some t =>
          let districts := rowsOrDirectory (Store.selectDistrictsByName t) in
          (json (PDistricts districts), setDistricts districts cache)
      | None => (json (PDistricts MAHARASHTRA_DISTRICTS), cache)
      end
  end.

(** A coordinate of the JSON body as the client sends it, when the property
    is there: null, a boolean or a number, which is a decimal.  Strings,
    arrays and objects, which the arithmetic of [getDistance] would first
    convert to a number, are not modelled. *)
Inductive JsValue :=
| JNull
| JBool (b : bool)
| JNum (q : Q).

(** The body of [POST /api/location-to-district]; [None] is a property
    that is absent ([undefined]). *)
Record LocationBody := mkBody {
  lat : option JsValue;
  lng : option JsValue
}.

(** The number an arithmetic operator reads from a value of [req.body],
    which [express.json()] has parsed: a number of the body is the double
    [JSON.parse] gives for its decimal. *)
Definition toNumber (v : JsValue) : Number :=
  match v with
  | JNull => Finite 0
  | JBool b => Finite (if b then 1 else 0)
  | JNum q => ofDecimal q
  end.

(** [!v] *)
Definition not_ (v : option JsValue) : bool :=
  match v with
  | None => true
  | Some JNull => true
  | Some (JBool b) => negb b
  | Some (JNum q) => falsy (ofDecimal q)
  end.

(** The coordinate [getDistance] is called with. *)
Definition coordinate (v : option JsValue) : Number :=
  match v with
  | Some x => toNumber x
  | None => NaN
  end.

(** [POST /api/location-to-district] *)
Definition locationToDistrict (reqBody : LocationBody) (cache : Cache) (db : Db)
  : Response * Cache :=
  if not_ (lat reqBody) || not_ (lng reqBody) then
    (mkResponse 400 (PError "Latitude and longitude required"), cache)
  else
    let nearest := nearestDistrict (coordinate (lat reqBody)) (coordinate (lng reqBody)) in
    match cachedDistricts cache with
    | Some districts => (json (PNearest (nearest districts)), cache)
    | None =>
        match db with
        | Some t =>
            let districts := rowsOrDirectory (Store.selectDistricts t) in
            (json (PNearest (nearest districts)), setDistricts districts cache)
        | None => (mkResponse 500 (PError "Location lookup failed"), cache)
        end
    end.

(** [GET /api/performance/:districtCode] *)
Definition getPerformance (districtCode : string) (now : Date)
    (cache : Cache) (db : Db) : Response * Cache :=
  match cachedPerf cache !! districtCode with
  | Some cached => (json (PMetrics cached), cache)
  | None =>
      match db with
      | Some t =>
          let data :=
            match Store.selectRecent districtCode 1 t with
            | row :: _ => Store.data row
            | [] => generateDistrictData districtCode (getMonth now) (getFullYear now)
            end in
          (json (PMetrics data), setPerf districtCode data cache)
      | None =>
          (json (PMetrics (generateDistrictData districtCode
                             (getMonth now) (getFullYear now))), cache)
      end
  end.

Definition monthNames : list string :=
  ["Jan"; "Feb"; "Mar"; "Apr"; "May"; "Jun";
   "Jul"; "Aug"; "Sep"; "Oct"; "Nov"; "Dec"].

(** [monthNames[i]] for an index the program produces (0..11). *)
Definition monthName (i : Z) : string :=
  default "" (monthNames !! Z.to_nat i).

(** The element built from a stored row.  The month label is
    [toLocaleString('default', { month: 'short' })] of the first day of
    that month, in an English locale: the entry of [monthNames]. *)
Definition trendOfRow (row : Store.PerfRow) : Trend :=
  mkTrend (monthName (getMonth (newDate (Store.year row) (Store.month row))))
          (Store.year row)
          (activeWorkers (Store.data row))
          (totalExpenditure (Store.data row))
          (completedWorks (Store.data row)).

(** The element pushed by the fallback loop at offset [i]. *)
Definition fallbackTrend (districtCode : string) (now : Date) (i : Z) : Trend :=
  let d := newDate (getFullYear now) (getMonth now - i) in
  let data := generateDistrictData districtCode (getMonth d) (getFullYear d) in
  mkTrend (monthName (getMonth d)) (getFullYear d)
          (activeWorkers data) (totalExpenditure data) (completedWorks data).

(** [for (let i = 6; i >= 0; i--) trends.push(..)] *)
Definition fallbackTrends (districtCode : string) (now : Date) : list Trend :=
  fallbackTrend districtCode now <$> [6; 5; 4; 3; 2; 1; 0].

(** [GET /api/trends/:districtCode] *)
Definition getTrends (districtCode : string) (now : Date)
    (cache : Cache) (db : Db) : Response * Cache :=
  match cachedTrends cache !! districtCode with
  | Some cached => (json (PTrends cached), cache)
  | None =>
      match db with
      | Some t =>
          let rows := Store.selectRecent districtCode 7 t in
          let trends :=
            match rows with
            | _ :: _ => reverse (trendOfRow <$> rows)
            | [] => fallbackTrends districtCode now
            end in
          (json (PTrends trends), setTrends districtCode trends cache)
      | None => (mkResponse 500 (PError "Failed to fetch trends"), cache)
      end
  end.

(** A request to one of the four routes. *)
Inductive Call :=
| GetDistricts
| PostLocation (reqBody : LocationBody)
| GetPerformance (districtCode : string)
| GetTrends (districtCode : string).

Definition handle (call : Call) (now : Date) (cache : Cache) (db : Db)
  : Response * Cache :=
  match call with
  | GetDistricts => getDistricts cache db
  | PostLocation reqBody => locationToDistrict reqBody cache db
  | GetPerformance districtCode => getPerformance districtCode now cache db
  | GetTrends districtCode => getTrends districtCode now cache db
  end.

(** Time passing: entries of the cache have expired, none has appeared. *)
Definition expires (cache cache' : Cache) : Prop :=
  (cachedDistricts cache' = None \/ cachedDistricts cache' = cachedDistricts cache)
  /\ cachedPerf cache' ⊆ cachedPerf cache
  /\ cachedTrends cache' ⊆ cachedTrends cache.

(** The states of the cache of a running server: it is created empty, the
    four handlers are the only code that writes to it, and entries
    expire. *)
Inductive reachable : Cache -> Prop :=
| reachable_start : reachable emptyCache
| reachable_handle (call : Call) (now : Date) (cache : Cache) (db : Db) :
    reachable cache -> reachable (handle call now cache db).2
| reachable_expires (cache cache' : Cache) :
    reachable cache -> expires cache cache' -> reachable cache'.

(** The district list the location handler scans: the cached one, else the
    stored rows, else the static directory; none when the query fails. *)
Definition activeDistricts (cache : Cache) (db : Db) : option (list District) :=
  match cachedDistricts cache with
  | Some districts => Some districts
  | None => (fun t => rowsOrDirectory (Store.selectDistricts t)) <$> db
  end.

(** The rank of a month in time. *)
Definition monthIndex (d : Date) : Z := getFullYear d * 12 + getMonth d.

End Api.

(** ** Bootstrap (server.js, lines 266-324) *)

Module Bootstrap.
Import Generator Directory Store.

(** The loop over [MAHARASHTRA_DISTRICTS] (lines 292-298). *)
Definition seedDistricts (rows : list DistrictRow) : list DistrictRow :=
  foldl (fun acc d => insertDistrict d acc) rows MAHARASHTRA_DISTRICTS.

(** The row inserted for a district at offset [i] from the date [now]
    read for that district; [stamp] is the database's [NOW()]. *)
Definition backfillRow (districtCode : string) (now : Api.Date)
    (stamp : Z) (i : Z) : PerfRow :=
  let d := Api.newDate (Api.getFullYear now) (Api.getMonth now - i) in
  mkPerfRow districtCode (Api.getMonth d) (Api.getFullYear d)
    (generateDistrictData districtCode (Api.getMonth d) (Api.getFullYear d))
    stamp.

(** Inserting a list of rows one query after the other; the first query
    that fails ends the run. *)
Fixpoint insertAll (new : list PerfRow) (rows : list PerfRow)
  : option (list PerfRow) :=
  match new with
  | [] => Some rows
  | r :: rest => rows' ← insertPerformance r rows; insertAll rest rows'
  end.

(** The rows one district is backfilled with, in the order the inner loop
    produces them ([i = 6] down to [0]). *)
Definition backfillRows (clock : string -> Api.Date) (stamp : Z)
    (districtCode : string) : list PerfRow :=
  backfillRow districtCode (clock districtCode) stamp <$> [6; 5; 4; 3; 2; 1; 0].

(** [initDatabase] on tables that exist.  [clock] is the [new Date()] read
    at the top of each district's iteration, [stamp] the database clock.
    [None] is the [catch] branch, which ends the process. *)
Definition initDatabase (clock : string -> Api.Date) (stamp : Z) (t : Tables)
  : option Tables :=
  let seeded := mkTables (seedDistricts (districts t)) (performance t) in
  perf' ← insertAll (selectCodes seeded ≫= backfillRows clock stamp)
                    (performance seeded);
  Some (mkTables (districts seeded) perf').

End Bootstrap.

(** * Properties *)

(** ** Real-number facts used by the generator and the distance function *)

Section RealFacts.
#[local] Open Scope R_scope.

(** Thirteen terms of the series [PI/4 = 2 atan(1/3) + atan(1/7)] bracket
    [PI] to twelve decimals. *)
Lemma PI_12_digits : 3.141592653589 < PI < 3.141592653590.
Proof.
  destruct (PI_2_3_7_ineq 6) as [Hlow Hup].
  unfold PI_2_3_7_tg, tg_alt, Ratan_seq in Hlow, Hup.
  cbn [sum_f_R0 Nat.mul Nat.add pow INR] in Hlow, Hup.
  split; lra.
Qed.

(** Periodicity of the sine with an integer (binary) number of turns. *)
Lemma sin_turns (y : R) (k : Z) :
  (0 <= k)%Z -> sin (y + 2 * IZR k * PI) = sin y.
Proof.
  intros Hk.
  rewrite <- (Z2Nat.id k Hk), <- INR_IZR_INZ.
  apply sin_period.
Qed.

(** The sine is non-negative on the upper half of every turn. *)
Lemma sin_nonneg_upper_half (x : R) (k : Z) :
  (0 <= k)%Z ->
  2 * IZR k * PI <= x -> x <= (2 * IZR k + 1) * PI ->
  0 <= sin x.
Proof.
  intros Hk Hlo Hhi.
  replace x with ((x - 2 * IZR k * PI) + 2 * IZR k * PI) by ring.
  rewrite sin_turns by assumption.
  apply sin_ge_0; lra.
Qed.

(** Reduction of a sine in the lower half of turn [k] to a cosine of the
    distance to the bottom of the turn. *)
Lemma sin_as_cos (x : R) (k : Z) :
  (0 <= k)%Z -> sin x = - cos ((2 * IZR k + 3 / 2) * PI - x).
Proof.
  intros Hk.
  replace ((2 * IZR k + 3 / 2) * PI - x)
    with (PI / 2 - (x - 2 * IZR k * PI - PI)) by field.
  rewrite cos_shift, <- neg_sin.
  replace (x - 2 * IZR k * PI - PI + PI) with (x - 2 * IZR k * PI) by ring.
  replace x with ((x - 2 * IZR k * PI) + 2 * IZR k * PI) at 1 by ring.
  by rewrite sin_turns.
Qed.

Lemma INR_fact_Z (n : nat) : INR (fact n) = IZR (Z.of_nat (fact n)).
Proof. apply INR_IZR_INZ. Qed.

(** The Taylor polynomials behind [cos_lb] and [cos_ub]. *)
Lemma cos_lb_poly (a : R) :
  cos_lb a = 1 - a ^ 2 / 2 + a ^ 4 / 24 - a ^ 6 / 720.
Proof.
  unfold cos_lb, cos_approx, cos_term.
  cbn [sum_f_R0 Nat.mul Nat.add].
  rewrite !INR_fact_Z.
  change (Z.of_nat (fact 0)) with 1%Z.
  change (Z.of_nat (fact 2)) with 2%Z.
  change (Z.of_nat (fact 4)) with 24%Z.
  change (Z.of_nat (fact 6)) with 720%Z.
  field.
Qed.

Lemma cos_ub_poly (a : R) :
  cos_ub a = 1 - a ^ 2 / 2 + a ^ 4 / 24 - a ^ 6 / 720 + a ^ 8 / 40320.
Proof.
  unfold cos_ub, cos_approx, cos_term.
  cbn [sum_f_R0 Nat.mul Nat.add].
  rewrite !INR_fact_Z.
  change (Z.of_nat (fact 0)) with 1%Z.
  change (Z.of_nat (fact 2)) with 2%Z.
  change (Z.of_nat (fact 4)) with 24%Z.
  change (Z.of_nat (fact 6)) with 720%Z.
  replace (Z.of_nat (fact 8)) with 40320%Z by (vm_compute; reflexivity).
  field.
Qed.

(** The cosine of a point of [[lo, hi]], itself inside [[0, 3/2]]. *)
Lemma cos_enclosure (z lo hi : R) :
  0 <= lo -> lo <= z -> z <= hi -> hi <= 3 / 2 ->
  1 - hi ^ 2 / 2 + hi ^ 4 / 24 - hi ^ 6 / 720 <= cos z /\
  cos z <= 1 - lo ^ 2 / 2 + lo ^ 4 / 24 - lo ^ 6 / 720 + lo ^ 8 / 40320.
Proof.
  intros H0 H1 H2 H3.
  assert (HPI : 3 < PI) by (destruct PI_12_digits; lra).
  rewrite <- cos_lb_poly, <- cos_ub_poly.
  split.
  - apply Rle_trans with (cos hi).
    + apply COS; lra.
    + apply cos_decr_1; lra.
  - apply Rle_trans with (cos lo).
    + apply cos_decr_1; lra.
    + apply COS; lra.
Qed.

End RealFacts.


(** ** The synthetic data generator *)

Module GeneratorFacts.
Import Generator.

(** The sine lies in [-1, 1], so the shared draw lies in [-10000, 10000]. *)
Lemma sineDraw_bounds (seed : Z) : -10000 <= sineDraw seed <= 10000.
Proof.
  unfold sineDraw.
  set (x := IZR (seed * 9999)).
  destruct (SIN_bound x) as [Hlo Hhi].
  destruct (Zfloor_bound (sin x * 10000)) as [Hfl _].
  split.
  - apply Zfloor_lub. lra.
  - apply le_IZR. lra.
Qed.

(** A negative sine gives a negative draw. *)
Lemma sineDraw_negative (seed : Z) :
  (sin (IZR (seed * 9999)) < 0)%R -> sineDraw seed < 0.
Proof.
  intros Hneg. unfold sineDraw.
  destruct (Zfloor_bound (sin (IZR (seed * 9999)) * 10000)) as [Hfl _].
  apply lt_IZR. lra.
Qed.

Lemma sineDraw_nonnegative (seed : Z) :
  (0 <= sin (IZR (seed * 9999)))%R -> 0 <= sineDraw seed.
Proof.
  intros Hpos. unfold sineDraw. apply Zfloor_lub. lra.
Qed.

(** On a non-negative draw [random(min, max)] does land in [[min, max)]. *)
Lemma randomOf_in_range (draw min max : Z) :
  0 <= draw -> min < max -> min <= randomOf draw min max < max.
Proof.
  intros Hd Hlt. unfold randomOf.
  pose proof (Z.rem_bound_pos draw (max - min) Hd ltac:(lia)). lia.
Qed.

(** On a negative draw the remainder keeps the sign of the draw, and the
    result is at most [min]. *)
Lemma randomOf_nonpositive_draw (draw min max : Z) :
  draw <= 0 -> min < max -> min - (max - min) < randomOf draw min max <= min.
Proof.
  intros Hd Hlt. unfold randomOf.
  pose proof (Z.rem_bound_pos_neg draw (max - min) ltac:(lia) Hd). lia.
Qed.

(** A negative draw smaller in magnitude than the width is added to [min]
    unchanged. *)
Lemma randomOf_small_negative (draw min max : Z) :
  - (max - min) < draw < 0 -> randomOf draw min max = draw + min.
Proof.
  intros Hd. unfold randomOf.
  rewrite <- (Z.opp_involutive draw) at 1.
  rewrite Z.rem_opp_l by lia.
  rewrite Z.rem_small by lia. lia.
Qed.

(** Two ranges of the same width give results that differ by the difference
    of their minimums, whatever the draw. *)
Lemma randomOf_same_width (draw w min1 min2 : Z) :
  randomOf draw min1 (min1 + w) = randomOf draw min2 (min2 + w) + (min1 - min2).
Proof.
  unfold randomOf.
  replace (min1 + w - min1) with w by lia.
  replace (min2 + w - min2) with w by lia.
  lia.
Qed.

(** The seed of ("PUN", 4, 2024) is 80 + 4 + 2024. *)
Lemma seedOf_PUN_May_2024 : seedOf "PUN" 4 2024 = Some 2108.
Proof. reflexivity. Qed.

(** [2108 * 9999 = 21077892] radians is 3354650 full turns plus about
    4.409 radians, 0.3031 short of the bottom of the turn: the sine is
    -0.95441... *)
Lemma sin_seed_2108 :
  (-0.9545 <= sin (IZR (2108 * 9999)) < -0.9544)%R.
Proof.
  change (2108 * 9999) with 21077892.
  rewrite (sin_as_cos _ 3354650) by lia.
  destruct PI_12_digits as [Hlo Hhi].
  destruct (cos_enclosure
              ((2 * 3354650 + 3 / 2) * PI - 21077892) 0.30311 0.30313)%R
    as [Hc1 Hc2]; [lra | lra | lra | lra | ].
  split; lra.
Qed.

Lemma sineDraw_2108 : sineDraw 2108 = -9545.
Proof.
  unfold sineDraw. apply Zfloor_eq.
  destruct sin_seed_2108 as [Hlo Hhi]. split; lra.
Qed.

(** [2107 * 9999 = 21067893] radians is 3353059 full turns plus about 1.957
    radians: in the upper half turn, where the sine is not negative. *)
Lemma sineDraw_2107 : 0 <= sineDraw 2107.
Proof.
  apply sineDraw_nonnegative.
  change (2107 * 9999) with 21067893.
  destruct PI_12_digits as [Hlo Hhi].
  apply (sin_nonneg_upper_half _ 3353059); [lia | lra | lra].
Qed.

(** With a non-negative draw every metric is within its range. *)
Lemma metricsOf_nonneg_draw (d : Z) :
  0 <= d -> inDocumentedRanges (metricsOf (Some d)).
Proof.
  intros Hd. unfold inDocumentedRanges, metricsOf, within; cbn.
  repeat split; apply randomOf_in_range; lia.
Qed.

(** The documented ranges do hold on every input whose sine is not
    negative. *)
Lemma generateDistrictData_nonneg_sine (c : ascii) (rest : string)
    (month year : Z) :
  0 <= sineDraw (Z.of_nat (nat_of_ascii c) + month + year) ->
  inDocumentedRanges (generateDistrictData (String c rest) month year).
Proof. intros Hd. unfold generateDistrictData. cbn. by apply metricsOf_nonneg_draw. Qed.

(** With a negative draw the number of job cards is below its range: the
    draw is more than -70000, so the remainder is the draw itself. *)
Lemma metricsOf_negative_draw (d : Z) :
  -10000 <= d < 0 -> ~ inDocumentedRanges (metricsOf (Some d)).
Proof.
  intros Hd ([Hlo _] & _). cbn in Hlo.
  rewrite randomOf_small_negative in Hlo by lia. lia.
Qed.

(** The documented ranges hold exactly on the inputs whose draw is not
    negative. *)
Lemma generateDistrictData_ranges_iff (c : ascii) (rest : string)
    (month year : Z) :
  inDocumentedRanges (generateDistrictData (String c rest) month year) <->
  0 <= sineDraw (Z.of_nat (nat_of_ascii c) + month + year).
Proof.
  split; [|apply generateDistrictData_nonneg_sine].
  intros Hin.
  destruct (Z_lt_le_dec (sineDraw (Z.of_nat (nat_of_ascii c) + month + year)) 0)
    as [Hneg|Hpos]; [|done].
  exfalso. revert Hin. apply metricsOf_negative_draw.
  split; [apply sineDraw_bounds|done].
Qed.

(** C1.  The record computed for the district code "PUN", month 4 (May) and
    year 2024.  The seed is 2108, the sine of 2108 * 9999 is negative and
    the shared draw is -9545; the remainder keeps that sign, so every metric
    falls below the minimum of its documented range (the count of ongoing
    works is even negative): the documented ranges do not hold there. *)
Theorem generateDistrictData_PUN_May_2024 :
  generateDistrictData "PUN" 4 2024 =
    {| totalJobCards := Some 70455;
       activeWorkers := Some 30455;
       completedWorks := Some 55;
       ongoingWorks := Some (-45);
       totalExpenditure := Some 15;
       avgWagePaid := Some 225;
       workDemand := Some 40455;
       workProvided := Some 35455;
       avgPaymentDays := Some 3;
       womenParticipation := Some 40 |}
  /\ ~ inDocumentedRanges (generateDistrictData "PUN" 4 2024).
Proof.
  assert (Heq : generateDistrictData "PUN" 4 2024 = metricsOf (Some (-9545))).
  { unfold generateDistrictData. rewrite seedOf_PUN_May_2024. cbn [fmap option_fmap option_map].
    by rewrite sineDraw_2108. }
  rewrite Heq. split; [reflexivity|].
  intros ([Hjob _] & _). vm_compute in Hjob. by apply Hjob.
Qed.

(** C9.  On every district code that has a first character, the ten metrics
    are [random(min, max)] of one and the same draw
    [floor(sin(seed * 9999) * 10000)].  Hence the three metrics whose ranges
    have width 50000 move together: [workProvided = workDemand - 5000] and
    [activeWorkers = workDemand - 10000]; in general two ranges of equal
    width give values that differ by the difference of their minimums. *)
Theorem metrics_share_one_draw (c : ascii) (rest : string) (month year : Z) :
  let m := generateDistrictData (String c rest) month year in
  let draw := sineDraw (Z.of_nat (nat_of_ascii c) + month + year) in
  m = metricsOf (Some draw)
  /\ (exists demand,
        workDemand m = Some demand /\
        workProvided m = Some (demand - 5000) /\
        activeWorkers m = Some (demand - 10000))
  /\ (forall d w min1 min2,
        randomOf d min1 (min1 + w) =
        randomOf d min2 (min2 + w) + (min1 - min2)).
Proof.
  intros m draw. split; [reflexivity|]. split.
  - exists (randomOf draw 50000 100000). subst m. cbn.
    split; [reflexivity|]. split; f_equal.
    + apply (randomOf_same_width draw 50000 45000 50000).
    + apply (randomOf_same_width draw 50000 40000 50000).
  - intros d w min1 min2. apply randomOf_same_width.
Qed.

(** A non-empty code gives ten numbers. *)
Lemma generateDistrictData_allPresent (c : ascii) (rest : string)
    (month year : Z) :
  allPresent (generateDistrictData (String c rest) month year).
Proof. unfold allPresent, generateDistrictData. cbn. repeat split; eauto. Qed.

(** The records of April and May 2024 for a code that starts with a "P"
    differ: the first draw is not negative, the second is -9545. *)
Lemma generateDistrictData_PAL_April_May :
  generateDistrictData "PAL" 3 2024 <> generateDistrictData "PAL" 4 2024.
Proof.
  intros Heq. apply (f_equal totalJobCards) in Heq.
  assert (H3 : seedOf "PAL" 3 2024 = Some 2107) by reflexivity.
  assert (H4 : seedOf "PAL" 4 2024 = Some 2108) by reflexivity.
  unfold generateDistrictData in Heq. rewrite H3, H4 in Heq.
  cbn [fmap option_fmap option_map metricsOf totalJobCards] in Heq.
  rewrite sineDraw_2108 in Heq. injection Heq as Heq.
  pose proof (randomOf_in_range (sineDraw 2107) 80000 150000 sineDraw_2107
                ltac:(lia)) as Hrange.
  rewrite Heq in Hrange. vm_compute in Hrange. destruct Hrange as [Hlo _].
  by apply Hlo.
Qed.

End GeneratorFacts.



(** ** The rate limiter *)

Module RateLimitFacts.
Import RateLimit.

(** The four branches of [rateLimiter], one lemma each. *)
Lemma rateLimiter_first (ip : string) (now : Z) (rl : gmap string Window) :
  rl !! ip = None ->
  rateLimiter ip now rl = (<[ip := mkWindow 1 (now + 60000)]> rl, Next).
Proof. intros H. unfold rateLimiter. by rewrite H. Qed.

Lemma rateLimiter_expired (ip : string) (now : Z) (rl : gmap string Window) w :
  rl !! ip = Some w -> resetTime w < now ->
  rateLimiter ip now rl = (<[ip := mkWindow 1 (now + 60000)]> rl, Next).
Proof.
  intros H Hlt. unfold rateLimiter. rewrite H.
  by rewrite (proj2 (Z.ltb_lt _ _) Hlt).
Qed.

Lemma rateLimiter_counted (ip : string) (now : Z) (rl : gmap string Window) w :
  rl !! ip = Some w -> now <= resetTime w -> count w < RATE_LIMIT ->
  rateLimiter ip now rl =
    (<[ip := mkWindow (count w + 1) (resetTime w)]> rl, Next).
Proof.
  intros H Hle Hc. unfold rateLimiter. rewrite H.
  rewrite (proj2 (Z.ltb_ge _ _) Hle).
  by rewrite (proj2 (Z.leb_gt _ _) Hc).
Qed.

Lemma rateLimiter_denied (ip : string) (now : Z) (rl : gmap string Window) w :
  rl !! ip = Some w -> now <= resetTime w -> RATE_LIMIT <= count w ->
  rateLimiter ip now rl = (rl, Reject 429 "Too many requests").
Proof.
  intros H Hle Hc. unfold rateLimiter. rewrite H.
  rewrite (proj2 (Z.ltb_ge _ _) Hle).
  by rewrite (proj2 (Z.leb_le _ _) Hc).
Qed.

(** A call only ever writes the entry of the calling client. *)
Lemma rateLimiter_other (ip ip' : string) (now : Z) (rl : gmap string Window) :
  ip' <> ip -> (rateLimiter ip' now rl).1 !! ip = rl !! ip.
Proof.
  intros Hne. unfold rateLimiter.
  destruct (rl !! ip') as [w|]; [|by cbn [fst]; rewrite lookup_insert_ne].
  destruct (resetTime w <? now); [by cbn [fst]; rewrite lookup_insert_ne|].
  destruct (RATE_LIMIT <=? count w); [done|by cbn [fst]; rewrite lookup_insert_ne].
Qed.

(** A rejection is always a 429 and never writes. *)
Lemma rateLimiter_reject_inv (ip : string) (now : Z) (rl : gmap string Window)
    (status : Z) (error : string) :
  (rateLimiter ip now rl).2 = Reject status error ->
  status = 429 /\ (rateLimiter ip now rl).1 = rl /\
  exists w, rl !! ip = Some w /\ now <= resetTime w /\ RATE_LIMIT <= count w.
Proof.
  unfold rateLimiter.
  destruct (rl !! ip) as [w|] eqn:Hw; [|discriminate].
  destruct (resetTime w <? now) eqn:Ht; [discriminate|].
  destruct (RATE_LIMIT <=? count w) eqn:Hc; [|discriminate].
  cbn. intros [= <- <-].
  apply Z.ltb_ge in Ht. apply Z.leb_le in Hc. eauto 10.
Qed.

Lemma bounded_empty : bounded ∅.
Proof. intros ip w H. by rewrite lookup_empty in H. Qed.

Lemma rateLimiter_bounded (ip : string) (now : Z) (rl : gmap string Window) :
  bounded rl -> bounded (rateLimiter ip now rl).1.
Proof.
  intros Hb ip' w'. unfold rateLimiter.
  destruct (rl !! ip) as [w|] eqn:Hw.
  - destruct (resetTime w <? now).
    + cbn [fst]. rewrite lookup_insert. case_decide; [|apply Hb].
      intros [= <-]. cbn. unfold RATE_LIMIT. lia.
    + destruct (RATE_LIMIT <=? count w) eqn:Hc; [apply Hb|].
      cbn [fst]. rewrite lookup_insert. case_decide; [|apply Hb].
      intros [= <-]. cbn. apply Z.leb_gt in Hc.
      specialize (Hb _ _ Hw). unfold RATE_LIMIT in *. lia.
  - cbn [fst]. rewrite lookup_insert. case_decide; [|apply Hb].
    intros [= <-]. cbn. unfold RATE_LIMIT. lia.
Qed.

Lemma serve_cons (ip : string) (now : Z) (rest : list Request)
    (rl : gmap string Window) :
  serve ((ip, now) :: rest) rl =
    ((serve rest (rateLimiter ip now rl).1).1,
     (rateLimiter ip now rl).2 :: (serve rest (rateLimiter ip now rl).1).2).
Proof.
  cbn [serve]. destruct (rateLimiter ip now rl) as [rl1 v].
  cbn. by destruct (serve rest rl1).
Qed.

Lemma serve_bounded (reqs : list Request) (rl : gmap string Window) :
  bounded rl -> bounded (serve reqs rl).1.
Proof.
  revert rl. induction reqs as [|[ip now] rest IH]; intros rl Hb; [done|].
  rewrite serve_cons. cbn. by apply IH, rateLimiter_bounded.
Qed.

Lemma requestsOf_cons_same (ip : string) (now : Z) (rest : list Request) :
  requestsOf ip ((ip, now) :: rest) = S (requestsOf ip rest).
Proof. unfold requestsOf. by rewrite filter_cons_True. Qed.

Lemma requestsOf_cons_other (ip ip' : string) (now : Z) (rest : list Request) :
  ip' <> ip -> requestsOf ip ((ip', now) :: rest) = requestsOf ip rest.
Proof. intros Hne. unfold requestsOf. by rewrite filter_cons_False. Qed.

(** Inside a window that holds [c] requests already, the next [100 - c]
    requests of the client pass and all later ones are rejected, however the
    requests of other clients are interleaved. *)
Lemma serve_in_window (ip : string) (reqs : list Request) :
  forall (rl : gmap string Window) (c rt : Z),
    rl !! ip = Some (mkWindow c rt) -> 1 <= c <= RATE_LIMIT ->
    arriveBy ip rt reqs ->
    verdictsOf ip reqs (serve reqs rl).2 =
      replicate (requestsOf ip reqs `min` Z.to_nat (RATE_LIMIT - c)) Next ++
      replicate (requestsOf ip reqs - Z.to_nat (RATE_LIMIT - c))
                (Reject 429 "Too many requests")
    /\ (serve reqs rl).1 !! ip =
         Some (mkWindow (Z.min RATE_LIMIT (c + Z.of_nat (requestsOf ip reqs))) rt).
Proof.
  induction reqs as [|[ip' now] rest IH]; intros rl c rt Hw Hc Hby.
  - cbn. split; [done|]. rewrite Hw. do 2 f_equal. unfold requestsOf. cbn. lia.
  - apply Forall_cons in Hby as [Hnow Hrest]. cbn in Hnow.
    rewrite serve_cons. cbn [fst snd verdictsOf].
    destruct (decide (ip' = ip)) as [->|Hne].
    + rewrite requestsOf_cons_same. specialize (Hnow eq_refl).
      destruct (Z.eq_dec c RATE_LIMIT) as [->|Hlt].
      * rewrite (rateLimiter_denied _ _ _ _ Hw) by (cbn; lia). cbn [fst snd].
        destruct (IH rl RATE_LIMIT rt Hw ltac:(unfold RATE_LIMIT; lia) Hrest)
          as [IHv IHs].
        rewrite IHv, IHs. replace (RATE_LIMIT - RATE_LIMIT) with 0 by lia.
        cbn. rewrite !Nat.min_0_r, !Nat.sub_0_r. cbn.
        split; [done|]. do 2 f_equal. unfold RATE_LIMIT. lia.
      * rewrite (rateLimiter_counted _ _ _ _ Hw) by (cbn; lia). cbn [fst snd count resetTime].
        destruct (IH (<[ip := mkWindow (c + 1) rt]> rl) (c + 1) rt
                    ltac:(by rewrite lookup_insert_eq) ltac:(lia) Hrest)
          as [IHv IHs].
        rewrite IHv, IHs.
        assert (Hs : Z.to_nat (RATE_LIMIT - c) = S (Z.to_nat (RATE_LIMIT - (c + 1))))
          by lia.
        rewrite Hs. cbn [Nat.min Nat.sub replicate app].
        split; [done|]. do 2 f_equal. lia.
    + rewrite requestsOf_cons_other by done.
      apply IH; [|done|done]. by rewrite rateLimiter_other.
Qed.

(** C3.  Fixed window of the rate limiter.  A request of a client that has no
    window yet, or whose stored reset time has passed, opens a window of
    60000 ms with count 1 and is let through.  Of the requests the client
    makes up to the reset time of that window (the opening one included, and
    whatever other clients do in between), the first 100 are let through and
    the 101st and all later ones are answered 429.  A request after the reset
    time opens a new window with count 1 and is let through. *)
Theorem rateLimiter_fixed_window (ip : string) (t0 : Z)
    (rl : gmap string Window) (reqs : list Request) :
  (rl !! ip = None \/ exists w, rl !! ip = Some w /\ resetTime w < t0) ->
  arriveBy ip (t0 + 60000) reqs ->
  let n := requestsOf ip ((ip, t0) :: reqs) in
  let run := serve ((ip, t0) :: reqs) rl in
  rateLimiter ip t0 rl = (<[ip := mkWindow 1 (t0 + 60000)]> rl, Next)
  /\ verdictsOf ip ((ip, t0) :: reqs) run.2 =
       replicate (n `min` 100) Next ++
       replicate (n - 100) (Reject 429 "Too many requests")
  /\ (forall later, t0 + 60000 < later ->
        rateLimiter ip later run.1 =
          (<[ip := mkWindow 1 (later + 60000)]> run.1, Next)).
Proof.
  intros Hstart Hby n run.
  assert (Hfirst : rateLimiter ip t0 rl =
                     (<[ip := mkWindow 1 (t0 + 60000)]> rl, Next)).
  { destruct Hstart as [Hnone|(w & Hw & Hlt)].
    - by apply rateLimiter_first.
    - exact (rateLimiter_expired _ _ _ w Hw Hlt). }
  destruct (serve_in_window ip reqs (<[ip := mkWindow 1 (t0 + 60000)]> rl)
              1 (t0 + 60000)) as [Hv Hs].
  { by rewrite lookup_insert_eq. }
  { unfold RATE_LIMIT. lia. }
  { done. }
  subst n run. rewrite serve_cons, Hfirst, requestsOf_cons_same.
  cbn [fst snd verdictsOf]. rewrite decide_True by done.
  split; [done|]. split.
  - rewrite Hv. change (Z.to_nat (RATE_LIMIT - 1)) with 99%nat.
    change 100%nat with (S 99). by cbn [Nat.min Nat.sub replicate app].
  - intros later Hlater. eapply rateLimiter_expired; [exact Hs|]. cbn. lia.
Qed.

(** The claim at work: a client opens a window at time 1000 and sends 100
    more requests inside it, another client calling in between. *)
Lemma rateLimiter_fixed_window_witness :
  let reqs := ("10.0.0.7", 1000) ::
              replicate 60 ("10.0.0.7", 2000) ++ [("10.0.0.8", 2500)] ++
              replicate 40 ("10.0.0.7", 61000) in
  verdictsOf "10.0.0.7" reqs (serve reqs ∅).2 =
    replicate 100 Next ++ [Reject 429 "Too many requests"].
Proof.
  intros reqs.
  assert (Hby : arriveBy "10.0.0.7" (1000 + 60000)
                  (replicate 60 ("10.0.0.7", 2000) ++ [("10.0.0.8", 2500)] ++
                   replicate 40 ("10.0.0.7", 61000))).
  { unfold arriveBy. rewrite !Forall_app. repeat split.
    - apply Forall_replicate. cbn. lia.
    - repeat constructor. cbn. lia.
    - apply Forall_replicate. cbn. lia. }
  destruct (rateLimiter_fixed_window "10.0.0.7" 1000 ∅ _
              (or_introl (lookup_empty _)) Hby) as (_ & Hv & _).
  exact Hv.
Defined.

(** C10.  A request that is denied leaves the limiter as it was: when the
    count of the client is at or above the limit inside its window, the
    middleware answers 429 and returns the very same table (no count is
    incremented, no reset time altered, no other entry touched).  Whatever
    requests have been served since start-up, every stored count is between
    1 and 100. *)
Theorem rateLimiter_denied_unchanged (ip : string) (now : Z)
    (rl : gmap string Window) (w : Window) :
  rl !! ip = Some w -> now <= resetTime w -> RATE_LIMIT <= count w ->
  rateLimiter ip now rl = (rl, Reject 429 "Too many requests")
  /\ (forall k, (serve (replicate k (ip, now)) rl).1 = rl)
  /\ (forall reqs ip' w',
        (serve reqs ∅).1 !! ip' = Some w' -> 1 <= count w' <= 100).
Proof.
  intros Hw Hle Hc. split; [exact (rateLimiter_denied _ _ _ w Hw Hle Hc)|]. split.
  - induction k as [|k IH]; [done|].
    cbn [replicate]. rewrite serve_cons. cbn [fst].
    by rewrite (rateLimiter_denied _ _ _ _ Hw Hle Hc).
  - intros reqs ip' w'. apply (serve_bounded reqs ∅ bounded_empty).
Qed.

Lemma rateLimiter_denied_unchanged_witness :
  let rl : gmap string Window :=
    {[ "10.0.0.7" := mkWindow 100 61000; "10.0.0.8" := mkWindow 3 61500 ]} in
  rateLimiter "10.0.0.7" 2000 rl = (rl, Reject 429 "Too many requests").
Proof.
  intros rl.
  refine (proj1 (rateLimiter_denied_unchanged "10.0.0.7" 2000 rl
                   (mkWindow 100 61000) _ _ _)).
  - reflexivity.
  - cbn. lia.
  - cbn. unfold RATE_LIMIT. lia.
Defined.

End RateLimitFacts.

(** ** Distances and the nearest district *)

Module DirectoryFacts.
Import Number Directory.
#[local] Open Scope R_scope.

(** The Taylor polynomial behind [sin_lb]. *)
Lemma sin_lb_poly (a : R) :
  sin_lb a = a - a ^ 3 / 6 + a ^ 5 / 120 - a ^ 7 / 5040.
Proof.
  unfold sin_lb, sin_approx, sin_term.
  cbn [sum_f_R0 Nat.mul Nat.add].
  rewrite !INR_fact_Z.
  change (Z.of_nat (fact 1)) with 1%Z.
  change (Z.of_nat (fact 3)) with 6%Z.
  change (Z.of_nat (fact 5)) with 120%Z.
  replace (Z.of_nat (fact 7)) with 5040%Z by (vm_compute; reflexivity).
  field.
Qed.

Lemma PI_bounds : 3.14 < PI < 3.15.
Proof. destruct PI_12_digits. lra. Qed.

(** The square of a sine is at most the square of its argument. *)
Lemma sin_sq_le (x : R) : sin x * sin x <= x * x.
Proof.
  assert (Hpos : forall y, 0 <= y -> sin y * sin y <= y * y).
  { intros y Hy. destruct (SIN_bound y) as [Hlo Hhi].
    destruct (Rle_lt_dec 1 y) as [Hbig|Hsmall]; [nra|].
    assert (0 <= sin y) by (apply sin_ge_0; destruct PI_bounds; lra).
    destruct (Req_dec y 0) as [->|Hne]; [rewrite sin_0; lra|].
    assert (sin y < y) by (apply sin_lt_x; lra). nra. }
  destruct (Rle_lt_dec 0 x) as [Hx|Hx]; [by apply Hpos|].
  specialize (Hpos (- x) ltac:(lra)). rewrite sin_neg in Hpos. nra.
Qed.

(** Away from zero, and up to a quarter turn, the square of a sine is
    bounded below. *)
Lemma sin_sq_ge (x : R) :
  (0.004 <= x <= PI / 2 \/ 0.004 <= - x <= PI / 2) ->
  0.000015 <= sin x * sin x.
Proof.
  assert (Hpos : forall y, 0.004 <= y <= PI / 2 -> 0.000015 <= sin y * sin y).
  { intros y [Hlo Hhi]. destruct PI_bounds as [Hp1 Hp2].
    assert (Hmono : sin 0.004 <= sin y) by (apply sin_incr_1; lra).
    assert (Hlb : sin_lb 0.004 <= sin 0.004) by (apply SIN; lra).
    rewrite sin_lb_poly in Hlb.
    assert (0.0039 <= sin y) by lra. nra. }
  intros [H|H]; [by apply Hpos|].
  specialize (Hpos (- x) H). rewrite sin_neg in Hpos. nra.
Qed.

(** Half the angle, in radians, of a difference of [d] degrees. *)
Lemma half_angle_bounds (d hi : R) :
  0.5 <= d <= hi -> hi <= 180 ->
  0.004 <= d * PI / 180 / 2 <= PI / 2.
Proof.
  intros [Hlo Hhi] Hle. destruct PI_bounds as [Hp1 Hp2].
  assert (0.5 * PI <= d * PI) by (apply Rmult_le_compat_r; lra).
  assert (d * PI <= 180 * PI) by (apply Rmult_le_compat_r; lra).
  split; lra.
Qed.

(** The haversine term is small between two points that are close ... *)
Lemma haversine_close (lat1 lng1 lat2 lng2 : R) :
  - 0.01 <= lat2 - lat1 <= 0.01 -> - 0.01 <= lng2 - lng1 <= 0.01 ->
  haversine lat1 lng1 lat2 lng2 <= 0.00000002.
Proof.
  intros Hlat Hlng. unfold haversine. destruct PI_bounds as [Hp1 Hp2].
  set (u := (lat2 - lat1) * PI / 180 / 2).
  set (v := (lng2 - lng1) * PI / 180 / 2).
  pose proof (sin_sq_le u) as Hu. pose proof (sin_sq_le v) as Hv.
  assert (Hsmall : forall d, - 0.01 <= d <= 0.01 ->
            d * PI / 180 / 2 * (d * PI / 180 / 2) <= 0.00000001).
  { intros d Hd.
    assert (- 0.0315 <= d * PI <= 0.0315) by nra.
    assert (- 0.0001 <= d * PI / 180 / 2 <= 0.0001) by lra.
    nra. }
  pose proof (Hsmall _ Hlat) as Hu2. pose proof (Hsmall _ Hlng) as Hv2.
  fold u in Hu2. fold v in Hv2.
  destruct (COS_bound (lat1 * PI / 180)) as [Hc1 Hc2].
  destruct (COS_bound (lat2 * PI / 180)) as [Hc3 Hc4].
  assert (Hcc : cos (lat1 * PI / 180) * cos (lat2 * PI / 180) <= 1) by nra.
  assert (Hs : 0 <= sin v * sin v) by nra.
  assert (cos (lat1 * PI / 180) * cos (lat2 * PI / 180) * sin v * sin v
          <= sin v * sin v) by nra.
  lra.
Qed.

(** ... and not small between two points whose latitudes differ by half a
    degree or more ... *)
Lemma haversine_lat_apart (lat1 lng1 lat2 lng2 : R) :
  - 90 <= lat1 <= 90 -> - 90 <= lat2 <= 90 ->
  (0.5 <= lat2 - lat1 \/ 0.5 <= lat1 - lat2) ->
  0.000015 <= haversine lat1 lng1 lat2 lng2.
Proof.
  intros H1 H2 Hd. unfold haversine. destruct PI_bounds as [Hp1 Hp2].
  set (u := (lat2 - lat1) * PI / 180 / 2).
  set (v := (lng2 - lng1) * PI / 180 / 2).
  assert (Hu : 0.000015 <= sin u * sin u).
  { apply sin_sq_ge. unfold u. destruct Hd as [Hd|Hd]; [left|right].
    - apply (half_angle_bounds _ 180); lra.
    - replace (- ((lat2 - lat1) * PI / 180 / 2))
        with ((lat1 - lat2) * PI / 180 / 2) by field.
      apply (half_angle_bounds _ 180); lra. }
  assert (Hquarter : forall l, - 90 <= l <= 90 ->
            - (PI / 2) <= l * PI / 180 <= PI / 2).
  { intros l Hl.
    assert (- 90 * PI <= l * PI) by (apply Rmult_le_compat_r; lra).
    assert (l * PI <= 90 * PI) by (apply Rmult_le_compat_r; lra).
    split; lra. }
  assert (Hc1 : 0 <= cos (lat1 * PI / 180))
    by (apply cos_ge_0; apply Hquarter; lra).
  assert (Hc2 : 0 <= cos (lat2 * PI / 180))
    by (apply cos_ge_0; apply Hquarter; lra).
  assert (0 <= cos (lat1 * PI / 180) * cos (lat2 * PI / 180) * sin v * sin v).
  { rewrite Rmult_assoc. apply Rmult_le_pos; [by apply Rmult_le_pos|nra]. }
  lra.
Qed.

(** ... or whose longitudes differ by half a degree or more, at latitudes
    up to 19 degrees north. *)
Lemma haversine_lng_apart (lat1 lng1 lat2 lng2 : R) :
  0 <= lat1 <= 19 -> 0 <= lat2 <= 19 ->
  (0.5 <= lng2 - lng1 <= 90 \/ 0.5 <= lng1 - lng2 <= 90) ->
  0.000013 <= haversine lat1 lng1 lat2 lng2.
Proof.
  intros H1 H2 Hd. unfold haversine. destruct PI_bounds as [Hp1 Hp2].
  set (u := (lat2 - lat1) * PI / 180 / 2).
  set (v := (lng2 - lng1) * PI / 180 / 2).
  assert (Hv : 0.000015 <= sin v * sin v).
  { apply sin_sq_ge. unfold v. destruct Hd as [Hd|Hd]; [left|right].
    - apply (half_angle_bounds _ 90); lra.
    - replace (- ((lng2 - lng1) * PI / 180 / 2))
        with ((lng1 - lng2) * PI / 180 / 2) by field.
      apply (half_angle_bounds _ 90); lra. }
  assert (Hcos : forall l, 0 <= l <= 19 -> 0.94 <= cos (l * PI / 180)).
  { intros l Hl.
    assert (0 <= l * PI) by (apply Rmult_le_pos; lra).
    assert (l * PI <= 19 * PI) by (apply Rmult_le_compat_r; lra).
    destruct (cos_enclosure (l * PI / 180) 0 0.34) as [Hlow _]; lra. }
  pose proof (Hcos _ H1) as Hc1. pose proof (Hcos _ H2) as Hc2.
  assert (0 <= sin u * sin u) by nra.
  assert (0.88 <= cos (lat1 * PI / 180) * cos (lat2 * PI / 180)) by nra.
  rewrite Rmult_assoc. nra.
Qed.

(** On [[0, 1)] the central angle grows strictly with the haversine term. *)
Lemma centralAngle_lt (a1 a2 : R) :
  0 <= a1 -> a1 < a2 -> a1 < 1 -> centralAngle a1 < centralAngle a2.
Proof.
  intros H0 Hlt H1. unfold centralAngle, atan2.
  assert (Hs1 : 0 < sqrt (1 - a1)) by (apply sqrt_lt_R0; lra).
  assert (Hsa : sqrt a1 < sqrt a2) by (apply sqrt_lt_1_alt; lra).
  assert (Hsa1 : 0 <= sqrt a1) by apply sqrt_pos.
  destruct (Rlt_dec 0 (sqrt (1 - a1))) as [_|Hn]; [|lra].
  destruct (Rlt_dec 0 (sqrt (1 - a2))) as [Hs2|Hs2].
  - apply Rmult_lt_compat_l; [lra|]. apply atan_increasing.
    assert (Hle : sqrt (1 - a2) <= sqrt (1 - a1)) by (apply sqrt_le_1_alt; lra).
    unfold Rdiv.
    apply Rle_lt_trans with (sqrt a1 * / sqrt (1 - a2)).
    + apply Rmult_le_compat_l; [done|]. by apply Rinv_le_contravar.
    + apply Rmult_lt_compat_r; [by apply Rinv_0_lt_compat|done].
  - pose proof (sqrt_pos (1 - a2)) as Hp.
    destruct (Rlt_dec (sqrt (1 - a2)) 0) as [Hneg|_]; [lra|].
    destruct (Rlt_dec 0 (sqrt a2)) as [_|Hz]; [|lra].
    destruct (atan_bound (sqrt a1 / sqrt (1 - a1))) as [_ Hub]. lra.
Qed.

(** [atan2] of two numbers that are not negative is an angle of the first
    quadrant. *)
Lemma atan2_first_quadrant (y x : R) :
  0 <= y -> 0 <= x -> 0 <= atan2 y x <= PI / 2.
Proof.
  intros Hy Hx. unfold atan2. pose proof PI_RGT_0 as Hpi.
  destruct (Rlt_dec 0 x) as [Hpos|Hnpos].
  - destruct (atan_bound (y / x)) as [_ Hub].
    split; [|lra]. rewrite <- atan_0.
    destruct (Req_dec y 0) as [->|Hne].
    + unfold Rdiv. rewrite Rmult_0_l. lra.
    + left. apply atan_increasing. apply Rdiv_lt_0_compat; lra.
  - destruct (Rlt_dec x 0) as [Hneg|_]; [lra|].
    destruct (Rlt_dec 0 y) as [_|_]; [lra|].
    destruct (Rlt_dec y 0) as [Hneg|_]; lra.
Qed.

Lemma greatCircle_lt (lat0 lng0 lat1 lng1 lat2 lng2 : R) :
  0 <= haversine lat0 lng0 lat1 lng1 ->
  haversine lat0 lng0 lat1 lng1 < haversine lat0 lng0 lat2 lng2 ->
  haversine lat0 lng0 lat1 lng1 < 1 ->
  greatCircle lat0 lng0 lat1 lng1 < greatCircle lat0 lng0 lat2 lng2.
Proof.
  intros H0 Hlt H1. unfold greatCircle.
  apply Rmult_lt_compat_l; [lra|]. by apply centralAngle_lt.
Qed.

(** The haversine term is half of one minus the cosine of the angle between
    the two points: it lies between 0 and 1, whatever the coordinates. *)
Lemma haversine_unit (lat1 lng1 lat2 lng2 : R) :
  0 <= haversine lat1 lng1 lat2 lng2 <= 1.
Proof.
  unfold haversine.
  set (p1 := lat1 * PI / 180). set (p2 := lat2 * PI / 180).
  set (v := (lng2 - lng1) * PI / 180 / 2).
  replace ((lat2 - lat1) * PI / 180 / 2) with ((p2 - p1) / 2)
    by (unfold p1, p2; field).
  assert (Hu : sin ((p2 - p1) / 2) * sin ((p2 - p1) / 2)
               = (1 - (cos p2 * cos p1 + sin p2 * sin p1)) / 2).
  { rewrite <- cos_minus.
    replace (p2 - p1) with (2 * ((p2 - p1) / 2)) at 3 by field.
    rewrite cos_2a_sin. field. }
  rewrite Hu.
  pose proof (sin2_cos2 p1) as E1. pose proof (sin2_cos2 p2) as E2.
  unfold Rsqr in E1, E2.
  pose proof (sin2_cos2 v) as Ev. unfold Rsqr in Ev.
  set (c1 := cos p1) in *. set (s1 := sin p1) in *.
  set (c2 := cos p2) in *. set (s2 := sin p2) in *.
  set (S := sin v * sin v).
  assert (HS : 0 <= S <= 1).
  { unfold S. pose proof (Rle_0_sqr (sin v)) as H1.
    pose proof (Rle_0_sqr (cos v)) as H2. unfold Rsqr in H1, H2. lra. }
  replace (c1 * c2 * sin v * sin v) with (c1 * c2 * S) by (unfold S; ring).
  assert (A1 : 0 <= 1 - s1 * s2 - c1 * c2)
    by (pose proof (Rle_0_sqr (s1 - s2)); pose proof (Rle_0_sqr (c1 - c2));
        unfold Rsqr in *; lra).
  assert (A2 : 0 <= 1 - s1 * s2 + c1 * c2)
    by (pose proof (Rle_0_sqr (s1 - s2)); pose proof (Rle_0_sqr (c1 + c2));
        unfold Rsqr in *; lra).
  assert (A3 : 0 <= 1 + s1 * s2 + c1 * c2)
    by (pose proof (Rle_0_sqr (s1 + s2)); pose proof (Rle_0_sqr (c1 + c2));
        unfold Rsqr in *; lra).
  assert (A4 : 0 <= 1 + s1 * s2 - c1 * c2)
    by (pose proof (Rle_0_sqr (s1 + s2)); pose proof (Rle_0_sqr (c1 - c2));
        unfold Rsqr in *; lra).
  split; nra.
Qed.

(** *** Numbers inside and outside the range *)

Lemma OVERFLOW_large : 10 ^ 300 < IZR OVERFLOW.
Proof.
  rewrite (pow_IZR 10 300). apply IZR_lt. by vm_compute.
Qed.

Lemma Rabs_bounds (a b : R) : Rabs a <= b -> - b <= a <= b.
Proof. unfold Rabs. destruct (Rcase_abs a); lra. Qed.

(** A result of moderate size is stored as it is. *)
Lemma rounded_Finite (r : R) : Rabs r <= 100000 -> rounded r = Finite r.
Proof.
  intros Hr. unfold rounded. pose proof OVERFLOW_large as Hbig.
  assert (100000 < 10 ^ 300).
  { rewrite (pow_IZR 10 300). apply IZR_lt. by vm_compute. }
  destruct (Rlt_dec (Rabs r) (IZR OVERFLOW)) as [_|Hn]; [done|lra].
Qed.

Lemma Qabs_Rabs (q : Q) : Q2R (Qabs q) = Rabs (Q2R q).
Proof.
  apply Qabs_case; intros Hq.
  - rewrite Rabs_right; [done|]. apply Rle_ge.
    replace 0 with (Q2R 0) by (unfold Q2R; cbn; lra). by apply Qle_Rle.
  - rewrite Q2R_opp, Rabs_left1; [done|].
    replace 0 with (Q2R 0) by (unfold Q2R; cbn; lra). by apply Qle_Rle.
Qed.

(** The real a decimal is read as is not larger than the decimal. *)
Lemma decimal_bound (q : Q) (b : Q) :
  (Qabs q <= b)%Q -> Rabs (decimal q) <= Q2R b.
Proof.
  intros Hq. apply Qle_Rle in Hq. rewrite Qabs_Rabs in Hq.
  unfold decimal. destruct (Qle_bool (Qabs q) UNDERFLOW); [|done].
  rewrite Rabs_R0. pose proof (Rabs_pos (Q2R q)). lra.
Qed.

(** A decimal that is read as a number other than zero is read as
    itself. *)
Lemma decimal_nonzero (q : Q) : decimal q <> 0 -> decimal q = Q2R q.
Proof. unfold decimal. by destruct (Qle_bool (Qabs q) UNDERFLOW). Qed.

(** A decimal of moderate size is read as a finite number. *)
Lemma ofDecimal_Finite (q : Q) :
  (Qabs q <= 180)%Q -> ofDecimal q = Finite (decimal q).
Proof.
  intros Hq. unfold ofDecimal.
  destruct (Qle_bool (inject_Z OVERFLOW) (Qabs q)) eqn:E; [|done].
  apply Qle_bool_iff in E.
  assert (H : (inject_Z OVERFLOW <= 180)%Q)
    by (by apply (Qle_trans _ (Qabs q))).
  by vm_compute in H.
Qed.

(** A decimal beyond the range of the doubles is read as an infinity. *)
Lemma ofDecimal_Infinity (q : Q) :
  (inject_Z OVERFLOW <= Qabs q)%Q ->
  ofDecimal q = Infinity (negb (Qle_bool 0 q)).
Proof.
  intros Hq. unfold ofDecimal. apply Qle_bool_iff in Hq. by rewrite Hq.
Qed.

(** On coordinates of moderate size nothing overflows, and [getDistance]
    is the great-circle formula. *)
Lemma getDistance_Finite (lat1 lng1 lat2 lng2 : R) :
  Rabs lat1 <= 180 -> Rabs lng1 <= 180 ->
  Rabs lat2 <= 180 -> Rabs lng2 <= 180 ->
  getDistance (Finite lat1) (Finite lng1) (Finite lat2) (Finite lng2) =
    Finite (greatCircle lat1 lng1 lat2 lng2).
Proof.
  intros H1 H2 H3 H4. destruct PI_bounds as [Hp1 Hp2].
  apply Rabs_bounds in H1, H2, H3, H4.
  assert (Hsub : forall x y, - 180 <= x <= 180 -> - 180 <= y <= 180 ->
            (Finite y - Finite x)%number = Finite (y - x)).
  { intros x y Hx Hy. unfold sub, add, neg. apply rounded_Finite.
    apply Rabs_le. lra. }
  assert (Hrad : forall x, - 360 <= x <= 360 ->
            (Finite x * Math_PI / 180)%number = Finite (x * PI / 180)).
  { intros x Hx. unfold mul, Math_PI. rewrite rounded_Finite; [done|].
    apply Rabs_le. split; nra. }
  assert (Hunit : forall x y, - 1 <= x <= 1 -> - 1 <= y <= 1 ->
            (Finite x * Finite y)%number = Finite (x * y)).
  { intros x y Hx Hy. unfold mul. apply rounded_Finite.
    apply Rabs_le. split; nra. }
  unfold getDistance. cbv zeta.
  rewrite !Hsub, !Hrad by lra. cbn [div Math_sin Math_cos].
  change (IZR (Z.pos 2)) with 2.
  set (u := (lat2 - lat1) * PI / 180 / 2).
  set (v := (lng2 - lng1) * PI / 180 / 2).
  set (p1 := lat1 * PI / 180). set (p2 := lat2 * PI / 180).
  pose proof (SIN_bound u) as Bu. pose proof (SIN_bound v) as Bv.
  pose proof (COS_bound p1) as B1. pose proof (COS_bound p2) as B2.
  assert (Bcc : - 1 <= cos p1 * cos p2 <= 1) by (split; nra).
  assert (Bccs : - 1 <= cos p1 * cos p2 * sin v <= 1) by (split; nra).
  rewrite (Hunit (sin u) (sin u)), (Hunit (cos p1) (cos p2)) by lra.
  rewrite (Hunit (cos p1 * cos p2) (sin v)) by lra.
  rewrite (Hunit (cos p1 * cos p2 * sin v) (sin v)) by lra.
  pose proof (haversine_unit lat1 lng1 lat2 lng2) as Ha.
  unfold haversine in Ha. cbv zeta in Ha.
  fold u v p1 p2 in Ha.
  set (a := sin u * sin u + cos p1 * cos p2 * sin v * sin v) in *.
  assert (Hadd : (Finite (sin u * sin u)
                  + Finite (cos p1 * cos p2 * sin v * sin v))%number = Finite a).
  { unfold add. apply rounded_Finite. apply Rabs_le. fold a. lra. }
  rewrite Hadd.
  assert (Hone : (Finite 1 - Finite a)%number = Finite (1 - a)).
  { unfold sub, add, neg. apply rounded_Finite. apply Rabs_le. lra. }
  rewrite Hone. unfold Math_sqrt.
  destruct (Rlt_dec a 0) as [Hneg|_]; [lra|].
  destruct (Rlt_dec (1 - a) 0) as [Hneg|_]; [lra|].
  cbn [Math_atan2].
  destruct (atan2_first_quadrant (sqrt a) (sqrt (1 - a))
              (sqrt_pos _) (sqrt_pos _)) as [Hlo Hhi].
  unfold mul at 2. rewrite rounded_Finite by (apply Rabs_le; lra).
  unfold mul. rewrite rounded_Finite by (apply Rabs_le; lra).
  reflexivity.
Qed.

(** From a point one of whose coordinates is infinite no distance is
    computed: [getDistance] is [NaN], whatever the other arguments. *)
Lemma getDistance_Infinity (lat1 lng1 lat2 lng2 : Number) :
  (exists s, lat1 = Infinity s) \/ (exists s, lng1 = Infinity s) ->
  getDistance lat1 lng1 lat2 lng2 = NaN.
Proof.
  assert (Hpi : PI <> 0) by (pose proof PI_RGT_0; lra).
  assert (Hsin : forall (s : bool) (b : Number),
            Math_sin ((b - Infinity s) * Math_PI / 180 / 2)%number = NaN).
  { intros s [y|s'|]; cbn; [| |done].
    - by destruct (Req_dec_T PI 0).
    - destruct (Bool.eqb s' (negb s)); cbn; [|done].
      by destruct (Req_dec_T PI 0). }
  assert (HaddNaN : forall b, (b + NaN)%number = NaN) by (by intros [ | |]).
  assert (HmulNaN : forall b, (b * NaN)%number = NaN) by (by intros [ | |]).
  intros [[s ->]|[s ->]]; unfold getDistance; cbv zeta; rewrite !Hsin.
  - by rewrite HmulNaN.
  - by rewrite !HmulNaN, HaddNaN.
Qed.

(** *** The scan *)

Section Scan.
Variables lat0 lng0 : R.

#[local] Abbreviation distanceTo := (Directory.distanceTo lat0 lng0).
#[local] Abbreviation scanned := (Directory.scanned lat0 lng0).

(** The loop computes a finite distance for the district, the one of the
    great-circle formula. *)
#[local] Abbreviation computed := (fun x : District =>
  getDistance (Finite lat0) (Finite lng0) (ofDecimal (lat x)) (ofDecimal (lng x))
  = Finite (distanceTo x)).

Lemma scanStep_scanned (seen : list District) acc (x : District) :
  computed x ->
  scanned seen acc ->
  scanned (seen ++ [x]) (scanStep (Finite lat0) (Finite lng0) acc x).
Proof.
  intros Hx. unfold scanStep. rewrite Hx.
  destruct acc as [[d|] [m|[|]|]]; cbn [Directory.scanned]; try done.
  - intros (-> & Hmin & before & after & -> & Hfirst). cbn [snd ltb].
    destruct (Rlt_dec (distanceTo x) (distanceTo d)) as [Hlt|Hge]; cbn [Directory.scanned].
    + split; [done|]. split.
      * intros d' [Hin| ->%list_elem_of_singleton]%elem_of_app; [|lra].
        specialize (Hmin d' Hin). lra.
      * exists (before ++ d :: after), []. split; [done|].
        intros d' Hin. specialize (Hmin d' Hin). lra.
    + split; [done|]. split.
      * intros d' [Hin| ->%list_elem_of_singleton]%elem_of_app; [by apply Hmin|lra].
      * exists before, (after ++ [x]). split; [by rewrite <- app_assoc|done].
  - intros ->. cbn [snd ltb negb Directory.scanned].
    split; [done|]. split.
    + intros d' ->%list_elem_of_singleton. lra.
    + exists [], []. split; [done|]. intros d' Hin. by apply elem_of_nil in Hin.
Qed.

Lemma foldl_scanned (l seen : list District) acc :
  Forall computed l ->
  scanned seen acc ->
  scanned (seen ++ l) (foldl (scanStep (Finite lat0) (Finite lng0)) acc l).
Proof.
  revert seen acc. induction l as [|x l IH]; intros seen acc Hl Hacc.
  - by rewrite app_nil_r.
  - apply Forall_cons in Hl as [Hx Hl].
    cbn [foldl]. replace (seen ++ x :: l) with ((seen ++ [x]) ++ l)
      by (by rewrite <- app_assoc).
    by apply IH, scanStep_scanned.
Qed.

(** The loop returns [null] on an empty list only, and otherwise the first
    district of the list at minimal distance. *)
Lemma nearestDistrict_spec (districts : list District) :
  Forall computed districts ->
  match nearestDistrict (Finite lat0) (Finite lng0) districts with
  | None => districts = []
  | Some d =>
      (forall d', d' ∈ districts -> distanceTo d <= distanceTo d') /\
      exists before after,
        districts = before ++ d :: after /\
        forall d', d' ∈ before -> distanceTo d < distanceTo d'
  end.
Proof.
  intros Hall. unfold nearestDistrict.
  pose proof (foldl_scanned districts [] (None, Infinity false) Hall eq_refl) as H.
  rewrite app_nil_l in H.
  destruct (foldl _ _ _) as [[d|] [m|[|]|]]; cbn [Directory.scanned fst] in *; try done.
  by destruct H as (_ & H).
Qed.

(** A district strictly closer than all the others is the one returned. *)
Lemma nearestDistrict_unique (districts : list District) (d0 : District) :
  Forall computed districts ->
  d0 ∈ districts ->
  Forall (fun d' => d' = d0 \/ distanceTo d0 < distanceTo d') districts ->
  nearestDistrict (Finite lat0) (Finite lng0) districts = Some d0.
Proof.
  intros Hcomp Hin Hall. pose proof (nearestDistrict_spec districts Hcomp) as Hspec.
  destruct (nearestDistrict (Finite lat0) (Finite lng0) districts) as [d|].
  - destruct Hspec as (Hmin & before & after & Heq & _).
    assert (Hd : d ∈ districts)
      by (rewrite Heq; apply elem_of_app; right; apply list_elem_of_here).
    rewrite Forall_forall in Hall.
    destruct (Hall d Hd) as [->|Hlt]; [done|].
    specialize (Hmin d0 Hin). lra.
  - subst. by apply elem_of_nil in Hin.
Qed.

End Scan.

(** From a point of finite coordinates of moderate size the loop computes
    the great-circle distance to every district whose coordinates are
    degrees. *)
Lemma degrees_computed (lat0 lng0 : R) (d : District) :
  Rabs lat0 <= 180 -> Rabs lng0 <= 180 -> degrees (lat d) (lng d) ->
  getDistance (Finite lat0) (Finite lng0) (ofDecimal (lat d)) (ofDecimal (lng d))
  = Finite (distanceTo lat0 lng0 d).
Proof.
  intros H1 H2 [Hlat Hlng].
  assert (Hlat' : (Qabs (lat d) <= 180)%Q)
    by (apply (Qle_trans _ 90); [exact Hlat|unfold Qle; cbn; lia]).
  rewrite !ofDecimal_Finite by done.
  apply decimal_bound in Hlat', Hlng.
  replace (Q2R 180) with 180 in Hlat', Hlng by (unfold Q2R; cbn; lra).
  by apply getDistance_Finite.
Qed.

(** From a point one of whose coordinates is infinite the loop finds no
    district. *)
Lemma nearestDistrict_Infinity (lat0 lng0 : Number) (districts : list District) :
  (exists s, lat0 = Infinity s) \/ (exists s, lng0 = Infinity s) ->
  nearestDistrict lat0 lng0 districts = None.
Proof.
  intros Hinf. unfold nearestDistrict.
  assert (H : foldl (scanStep lat0 lng0) (None, Infinity false) districts
              = (None, Infinity false)).
  { induction districts as [|d l IH]; [done|]. cbn [foldl].
    unfold scanStep at 2. by rewrite getDistance_Infinity. }
  by rewrite H.
Qed.

(** *** The query point (18.52, 73.85) against the directory *)

(** Bounds on the coordinates of a district, read off its literals. *)
Ltac coordinates :=
  rewrite ?decimal_nonzero
    by (unfold decimal; cbn [lat lng Pune];
        match goal with
        | |- context [Qle_bool ?a ?b] =>
            replace (Qle_bool a b) with false by (by vm_compute)
        end;
        unfold Q2R; cbn [Qnum Qden]; lra);
  unfold Q2R; cbn [lat lng Qnum Qden Pune]; lra.

Lemma Pune_is_close :
  0 <= haversine (Q2R 18.52) (Q2R 73.85)
         (decimal (lat Pune)) (decimal (lng Pune))
    <= 0.00000002.
Proof.
  split.
  - apply haversine_unit.
  - apply haversine_close; coordinates.
Qed.

(** Pune is strictly closer to the query point than a district half a
    degree or more away in latitude, or in longitude. *)
Lemma closer_than_lat_apart (d : District) :
  - 90 <= decimal (lat d) <= 90 ->
  (0.5 <= decimal (lat d) - Q2R 18.52 \/ 0.5 <= Q2R 18.52 - decimal (lat d)) ->
  distanceTo (Q2R 18.52) (Q2R 73.85) Pune < distanceTo (Q2R 18.52) (Q2R 73.85) d.
Proof.
  intros Hb Hd. destruct Pune_is_close as [Hp0 Hp1].
  pose proof (haversine_lat_apart (Q2R 18.52) (Q2R 73.85)
                (decimal (lat d)) (decimal (lng d))) as Hfar.
  apply greatCircle_lt; [done| |lra].
  assert (0.000015 <= haversine (Q2R 18.52) (Q2R 73.85)
                        (decimal (lat d)) (decimal (lng d))).
  { apply Hfar; [coordinates|done|done]. }
  lra.
Qed.

Lemma closer_than_lng_apart (d : District) :
  0 <= decimal (lat d) <= 19 ->
  (0.5 <= decimal (lng d) - Q2R 73.85 <= 90
   \/ 0.5 <= Q2R 73.85 - decimal (lng d) <= 90) ->
  distanceTo (Q2R 18.52) (Q2R 73.85) Pune < distanceTo (Q2R 18.52) (Q2R 73.85) d.
Proof.
  intros Hb Hd. destruct Pune_is_close as [Hp0 Hp1].
  pose proof (haversine_lng_apart (Q2R 18.52) (Q2R 73.85)
                (decimal (lat d)) (decimal (lng d))) as Hfar.
  apply greatCircle_lt; [done| |lra].
  assert (0.000013 <= haversine (Q2R 18.52) (Q2R 73.85)
                        (decimal (lat d)) (decimal (lng d))).
  { apply Hfar; [coordinates|done|done]. }
  lra.
Qed.

(** The coordinates of the directory are degrees. *)
Lemma directory_degrees :
  Forall (fun d => degrees (lat d) (lng d)) MAHARASHTRA_DISTRICTS.
Proof.
  unfold MAHARASHTRA_DISTRICTS.
  repeat (apply Forall_cons; split; [by split; vm_compute|]).
  by apply Forall_nil.
Qed.

(** Among the fifteen districts Pune is the nearest to (18.52, 73.85):
    thirteen of the others lie half a degree or more to the north or to the
    south, and Raigad, on Pune's latitude, 0.83 degree to the west. *)
Lemma nearestDistrict_Pune :
  nearestDistrict (Finite (Q2R 18.52)) (Finite (Q2R 73.85))
    MAHARASHTRA_DISTRICTS = Some Pune.
Proof.
  apply nearestDistrict_unique.
  - eapply Forall_impl; [exact directory_degrees|].
    intros d Hd. apply degrees_computed; [| |done];
      apply Rabs_le; unfold Q2R; cbn [Qnum Qden]; lra.
  - unfold MAHARASHTRA_DISTRICTS. do 2 apply list_elem_of_further.
    apply list_elem_of_here.
  - unfold MAHARASHTRA_DISTRICTS.
    repeat (apply Forall_cons; split);
      [ .. | by apply Forall_nil ];
      first [ by left
            | right; apply closer_than_lat_apart;
              [coordinates | first [left; coordinates | right; coordinates]]
            | right; apply closer_than_lng_apart;
              [coordinates | first [left; coordinates | right; coordinates]] ].
Qed.

End DirectoryFacts.


(** ** The queries *)

Module StoreFacts.
Import Store.

#[global] Instance recentFirst_trans : Transitive recentFirst.
Proof. intros a b c. unfold recentFirst. lia. Qed.

#[global] Instance recentFirst_total : Total recentFirst.
Proof. intros a b. unfold recentFirst. lia. Qed.

Lemma StronglySorted_reverse {A : Type} (R : relation A) (l : list A) :
  StronglySorted R l -> StronglySorted (flip R) (reverse l).
Proof.
  induction 1 as [|x l Hl IH Hx]; [constructor|].
  rewrite reverse_cons. apply StronglySorted_app_2.
  - intros y z Hy ->%list_elem_of_singleton.
    rewrite elem_of_reverse in Hy. rewrite Forall_forall in Hx. by apply Hx.
  - done.
  - repeat constructor.
Qed.

(** The rows of one district, as the [WHERE] clause selects them. *)
Lemma selectRecent_unfold (districtCode : string) (n : nat) (t : Tables) :
  selectRecent districtCode n t =
    take n (merge_sort recentFirst
              (filter (fun r => district_code r = districtCode) (performance t))).
Proof. reflexivity. Qed.

(** The query returns the [n] first rows of the district in the order
    [year DESC, month DESC]: at most [n] rows, most recent first, and no
    row left out is more recent than a row returned. *)
Lemma selectRecent_spec (districtCode : string) (n : nat) (t : Tables) :
  let stored := filter (fun r => district_code r = districtCode) (performance t) in
  let rows := selectRecent districtCode n t in
  (length rows <= n)%nat
  /\ StronglySorted recentFirst rows
  /\ exists older,
       rows ++ older ≡ₚ stored
       /\ StronglySorted recentFirst (rows ++ older)
       /\ (older <> [] -> length rows = n).
Proof.
  intros stored rows. subst rows. rewrite selectRecent_unfold. fold stored.
  pose proof (StronglySorted_merge_sort recentFirst stored) as Hsorted.
  pose proof (merge_sort_Permutation recentFirst stored) as Hperm.
  set (sorted := merge_sort recentFirst stored) in *.
  split; [rewrite length_take; lia|]. split.
  - rewrite <- (take_drop n sorted) in Hsorted.
    by apply StronglySorted_app_1_l in Hsorted.
  - exists (drop n sorted). rewrite take_drop. split; [done|]. split; [done|].
    intros Hne. rewrite length_take.
    destruct (decide (n <= length sorted)%nat) as [Hle|Hgt]; [lia|].
    rewrite drop_ge in Hne by lia. done.
Qed.

Lemma selectRecent_nil_iff (districtCode : string) (n : nat) (t : Tables) :
  (0 < n)%nat ->
  selectRecent districtCode n t = [] <->
  filter (fun r => district_code r = districtCode) (performance t) = [].
Proof.
  intros Hn. rewrite selectRecent_unfold.
  set (stored := filter _ _).
  pose proof (merge_sort_Permutation recentFirst stored) as Hperm.
  split.
  - intros Htake. destruct (merge_sort recentFirst stored) as [|r sorted] eqn:E.
    + by apply Permutation_nil in Hperm.
    + destruct n; [lia|discriminate].
  - intros Hst. clear Hperm. subst stored. rewrite Hst. by destruct n.
Qed.

(** No stored row of the district: the query returns no row. *)
Lemma selectRecent_none (districtCode : string) (n : nat) (t : Tables) :
  Forall (fun r => district_code r <> districtCode) (performance t) ->
  selectRecent districtCode n t = [].
Proof.
  intros Hall. rewrite selectRecent_unfold.
  assert (Hnil : filter (fun r => district_code r = districtCode) (performance t) = []).
  { induction Hall as [|r l Hr _ IH]; [done|].
    by rewrite filter_cons_False. }
  rewrite Hnil. by destruct n.
Qed.

End StoreFacts.

(** ** The route handlers *)

Module ApiFacts.
Import Generator Number Directory Api.

(** *** GET /api/districts *)

(** C5.  With no cached district list, and a district query that fails or
    returns no row, [GET /api/districts] answers 200 with the static
    directory itself: its fifteen entries, in the order of their
    definition. *)
Theorem getDistricts_static_fallback (cache : Cache) (db : Db) :
  cachedDistricts cache = None ->
  (db = None \/ exists t, db = Some t /\ Store.selectDistrictsByName t = []) ->
  (getDistricts cache db).1 = mkResponse 200 (PDistricts MAHARASHTRA_DISTRICTS)
  /\ length MAHARASHTRA_DISTRICTS = 15%nat
  /\ (fun d => (name d, code d)) <$> MAHARASHTRA_DISTRICTS =
       [ ("Kolhapur", "KOL"); ("Mumbai Suburban", "MUM"); ("Pune", "PUN");
         ("Nagpur", "NAG"); ("Nashik", "NAS"); ("Aurangabad", "AUR");
         ("Solapur", "SOL"); ("Thane", "THA"); ("Ahmednagar", "AHM");
         ("Satara", "SAT"); ("Sangli", "SAN"); ("Jalgaon", "JAL");
         ("Amravati", "AMR"); ("Raigad", "RAI"); ("Ratnagiri", "RAT") ].
Proof.
  intros Hmiss Hdb. split; [|split; reflexivity].
  unfold getDistricts. rewrite Hmiss.
  destruct Hdb as [->|(t & -> & Hrows)]; [done|].
  by rewrite Hrows.
Qed.

Lemma getDistricts_static_fallback_witness :
  (getDistricts emptyCache (Some Store.emptyTables)).1 =
    mkResponse 200 (PDistricts MAHARASHTRA_DISTRICTS)
  /\ (getDistricts emptyCache None).1 =
    mkResponse 200 (PDistricts MAHARASHTRA_DISTRICTS).
Proof.
  split.
  - refine (proj1 (getDistricts_static_fallback emptyCache
                     (Some Store.emptyTables) eq_refl _)).
    right. exists Store.emptyTables. split; reflexivity.
  - refine (proj1 (getDistricts_static_fallback emptyCache None eq_refl _)).
    by left.
Defined.

(** *** POST /api/location-to-district *)

(** An absent coordinate is answered 400, and nothing else is done: the
    cache is neither read nor written and no query is made. *)
Lemma locationToDistrict_missing (reqBody : LocationBody) (cache : Cache) (db : Db) :
  lat reqBody = None \/ lng reqBody = None ->
  locationToDistrict reqBody cache db =
    (mkResponse 400 (PError "Latitude and longitude required"), cache).
Proof.
  intros [H|H]; unfold locationToDistrict; rewrite H; cbn [not_ orb]; [done|].
  by rewrite orb_true_r.
Qed.

(** The status is 400 exactly when [!lat || !lng]. *)
Lemma locationToDistrict_400_iff (reqBody : LocationBody) (cache : Cache) (db : Db) :
  status (locationToDistrict reqBody cache db).1 = 400 <->
  not_ (lat reqBody) || not_ (lng reqBody) = true.
Proof.
  unfold locationToDistrict.
  destruct (not_ (lat reqBody) || not_ (lng reqBody)); cbn; [done|].
  destruct (cachedDistricts cache); [done|]. by destruct db.
Qed.

(** A decimal of magnitude [2^-1075] or less is read as the number 0, and
    [!0] holds. *)
Lemma not_underflow (q : Q) :
  (Qabs q <= UNDERFLOW)%Q -> not_ (Some (JNum q)) = true.
Proof.
  intros Hq. cbn [not_]. unfold ofDecimal.
  destruct (Qle_bool (inject_Z OVERFLOW) (Qabs q)) eqn:E.
  - apply Qle_bool_iff in E.
    assert (H : (inject_Z OVERFLOW <= UNDERFLOW)%Q)
      by (by apply (Qle_trans _ (Qabs q))).
    by vm_compute in H.
  - apply Qle_bool_iff in Hq. unfold decimal. rewrite Hq. cbn [falsy].
    by destruct (Req_dec_T 0 0).
Qed.

(** C2.  The body [{ lat: 0, lng: 73.85 }] carries both coordinates (a point
    of the equator), and yet the handler answers it 400 "Latitude and
    longitude required", whatever the cache and the storage: [!lat] holds of
    the number 0. *)
Theorem locationToDistrict_zero_latitude (cache : Cache) (db : Db) :
  locationToDistrict (mkBody (Some (JNum 0)) (Some (JNum 73.85))) cache db =
    (mkResponse 400 (PError "Latitude and longitude required"), cache).
Proof.
  unfold locationToDistrict. cbn [lat].
  by rewrite (not_underflow 0) by (by vm_compute).
Qed.

(** So does it answer a latitude too small for a double, such as 1e-400,
    which [JSON.parse] reads as 0. *)
Lemma locationToDistrict_tiny_latitude (cache : Cache) (db : Db) :
  locationToDistrict
    (mkBody (Some (JNum (1 # 10 ^ 400))) (Some (JNum 73.85))) cache db =
    (mkResponse 400 (PError "Latitude and longitude required"), cache).
Proof.
  unfold locationToDistrict. cbn [lat].
  by rewrite (not_underflow (1 # 10 ^ 400)) by (by vm_compute).
Qed.

(** [!] does not hold of a decimal of moderate size and of magnitude
    above [2^-1075]. *)
Lemma numeric_nonzero (q : Q) :
  Qle_bool (Qabs q) UNDERFLOW = false /\ (Qabs q <= 180)%Q ->
  not_ (Some (JNum q)) = false.
Proof.
  intros [Hq Hb]. cbn [not_]. rewrite DirectoryFacts.ofDecimal_Finite by done.
  unfold decimal. rewrite Hq. cbn [falsy].
  destruct (Req_dec_T (Q2R q) 0) as [E|_]; [|done].
  assert (Hle : (Qabs q <= UNDERFLOW)%Q).
  { apply Rle_Qle. rewrite DirectoryFacts.Qabs_Rabs, E, Rabs_R0.
    replace 0%R with (Q2R 0) by (unfold Q2R; cbn; lra).
    apply Qle_Rle. by vm_compute. }
  apply Qle_bool_iff in Hle. by rewrite Hle in Hq.
Qed.

(** A decimal of moderate size that is read as a number other than 0 is
    read as itself. *)
Lemma numeric_coordinate (q : Q) :
  not_ (Some (JNum q)) = false -> (Qabs q <= 180)%Q ->
  ofDecimal q = Finite (Q2R q).
Proof.
  intros Hq Hb. cbn [not_] in Hq. rewrite DirectoryFacts.ofDecimal_Finite in * by done.
  cbn [falsy] in Hq. destruct (Req_dec_T (decimal q) 0); [done|].
  by rewrite DirectoryFacts.decimal_nonzero.
Qed.

(** A decimal too large for a double is read as an infinity, of which [!]
    does not hold. *)
Lemma infinite_coordinate (q : Q) :
  (inject_Z OVERFLOW <= Qabs q)%Q ->
  not_ (Some (JNum q)) = false /\ exists s, ofDecimal q = Infinity s.
Proof.
  intros Hq. cbn [not_]. rewrite (DirectoryFacts.ofDecimal_Infinity q Hq). eauto.
Qed.

(** With two numbers in the body of which [!] does not hold the handler
    scans the active district list, when there is one, and fails with 500
    otherwise. *)
Lemma locationToDistrict_numeric (x y : Q) (cache : Cache) (db : Db) :
  not_ (Some (JNum x)) = false -> not_ (Some (JNum y)) = false ->
  (locationToDistrict (mkBody (Some (JNum x)) (Some (JNum y))) cache db).1 =
    match activeDistricts cache db with
    | Some districts =>
        json (PNearest (nearestDistrict (ofDecimal x) (ofDecimal y) districts))
    | None => mkResponse 500 (PError "Location lookup failed")
    end.
Proof.
  intros Hx Hy. unfold locationToDistrict, activeDistricts. cbn [lat lng].
  rewrite Hx, Hy. cbn [orb coordinate toNumber].
  destruct (cachedDistricts cache); [done|]. by destruct db.
Qed.

Lemma rowsOrDirectory_nonempty (rows : list District) :
  rowsOrDirectory rows <> [].
Proof. by destruct rows. Qed.

(** The handlers never cache an empty district list. *)
Lemma reachable_districts (cache : Cache) :
  reachable cache -> cachedDistricts cache <> Some [].
Proof.
  induction 1 as [|call now cache db _ IH|cache cache' _ IH (Hd & _)].
  - done.
  - destruct call as [|reqBody|districtCode|districtCode]; cbn [handle].
    + unfold getDistricts. destruct (cachedDistricts cache) eqn:Hc.
      * cbn [snd]. by rewrite Hc.
      * destruct db as [t|]; cbn [snd setDistricts cachedDistricts].
        -- intros [= H]. by apply rowsOrDirectory_nonempty in H.
        -- by rewrite Hc.
    + unfold locationToDistrict.
      destruct (not_ (lat reqBody) || not_ (lng reqBody)); [done|].
      destruct (cachedDistricts cache) eqn:Hc.
      * cbn [snd]. by rewrite Hc.
      * destruct db as [t|]; cbn [snd setDistricts cachedDistricts].
        -- intros [= H]. by apply rowsOrDirectory_nonempty in H.
        -- by rewrite Hc.
    + unfold getPerformance.
      destruct (cachedPerf cache !! districtCode); [done|]. by destruct db.
    + unfold getTrends.
      destruct (cachedTrends cache !! districtCode); [done|]. by destruct db.
  - destruct Hd as [Hd|Hd]; by rewrite Hd.
Qed.

(** The district list the location handler scans is never empty. *)
Lemma activeDistricts_nonempty (cache : Cache) (db : Db)
    (districts : list District) :
  reachable cache -> activeDistricts cache db = Some districts ->
  districts <> [].
Proof.
  intros Hreach. unfold activeDistricts.
  destruct (cachedDistricts cache) as [cached|] eqn:Hc.
  - intros [= <-] ->. by apply (reachable_districts cache Hreach).
  - destruct db as [t|]; [|done]. intros [= <-].
    apply rowsOrDirectory_nonempty.
Qed.




(** *** GET /api/performance/:districtCode *)

Lemma PMetrics_inj (a b : Metrics) : PMetrics a = PMetrics b -> a = b.
Proof. intros H. change (match PMetrics a with PMetrics m => m | _ => a end = b). by rewrite H. Qed.

(** The endpoint answers 200 on every path. *)
Lemma getPerformance_status (districtCode : string) (now : Date)
    (cache : Cache) (db : Db) :
  status (getPerformance districtCode now cache db).1 = 200.
Proof.
  unfold getPerformance.
  destruct (cachedPerf cache !! districtCode); [done|]. by destruct db.
Qed.

(** A cached record is returned as it is. *)
Lemma getPerformance_hit (districtCode : string) (now : Date)
    (cache : Cache) (db : Db) (cached : Metrics) :
  cachedPerf cache !! districtCode = Some cached ->
  getPerformance districtCode now cache db = (json (PMetrics cached), cache).
Proof. intros H. unfold getPerformance. by rewrite H. Qed.

(** C6, as stated, fails.  A district without stored rows is asked for in
    April 2024, which caches the record generated for April; asked for again
    in May 2024 while that entry is alive, the endpoint returns April's
    record, not the one generated for the current month. *)
Lemma getPerformance_stale_cache :
  let april := mkDate 2024 3 in
  let may := mkDate 2024 4 in
  let db : Db := Some Store.emptyTables in
  let cache := (getPerformance "PAL" april emptyCache db).2 in
  (getPerformance "PAL" may cache db).1 =
    json (PMetrics (generateDistrictData "PAL" 3 2024))
  /\ (getPerformance "PAL" may cache db).1 <>
    json (PMetrics (generateDistrictData "PAL" (getMonth may) (getFullYear may))).
Proof.
  intros april may db cache.
  assert (Hresp : (getPerformance "PAL" may cache db).1 =
                  json (PMetrics (generateDistrictData "PAL" 3 2024))).
  { subst cache. unfold getPerformance at 2. cbn [cachedPerf emptyCache].
    rewrite lookup_empty. cbn [db Store.selectRecent snd].
    erewrite getPerformance_hit; [done|].
    cbn [setPerf cachedPerf]. by rewrite lookup_insert_eq. }
  split; [done|]. rewrite Hresp. intros Heq.
  apply GeneratorFacts.generateDistrictData_PAL_April_May.
  exact (PMetrics_inj _ _ (f_equal body Heq)).
Qed.

(** C6, amended.  When the cache holds no record for the district, and the
    district has no stored performance row or the query fails, the endpoint
    answers 200 with [generateDistrictData] of that code and of the current
    month and year, whose ten metrics are all there for a code that is not
    empty.  When the cache holds a record, that record is the answer.  The
    status is 200 in every case. *)
Theorem getPerformance_synthetic (districtCode : string) (now : Date)
    (cache : Cache) (db : Db) :
  cachedPerf cache !! districtCode = None ->
  (db = None \/
   exists t, db = Some t /\
     Forall (fun r => Store.district_code r <> districtCode) (Store.performance t)) ->
  (getPerformance districtCode now cache db).1 =
    json (PMetrics (generateDistrictData districtCode
                      (getMonth now) (getFullYear now)))
  /\ (forall c rest, districtCode = String c rest ->
        allPresent (generateDistrictData districtCode
                      (getMonth now) (getFullYear now)))
  /\ (forall cache' db' cached,
        cachedPerf cache' !! districtCode = Some cached ->
        (getPerformance districtCode now cache' db').1 = json (PMetrics cached))
  /\ (forall cache' db',
        status (getPerformance districtCode now cache' db').1 = 200).
Proof.
  intros Hmiss Hdb. split; [|split; [|split]].
  - unfold getPerformance. rewrite Hmiss.
    destruct Hdb as [->|(t & -> & Hnone)]; [done|].
    by rewrite (StoreFacts.selectRecent_none _ _ _ Hnone).
  - intros c rest ->. apply GeneratorFacts.generateDistrictData_allPresent.
  - intros cache' db' cached Hhit. by rewrite (getPerformance_hit _ _ _ _ _ Hhit).
  - intros cache' db'. apply getPerformance_status.
Qed.

Lemma getPerformance_synthetic_witness :
  (getPerformance "PAL" (mkDate 2024 4) emptyCache (Some Store.emptyTables)).1 =
    json (PMetrics (generateDistrictData "PAL" 4 2024))
  /\ (getPerformance "PAL" (mkDate 2024 4) emptyCache None).1 =
    json (PMetrics (generateDistrictData "PAL" 4 2024)).
Proof.
  split.
  - refine (proj1 (getPerformance_synthetic "PAL" (mkDate 2024 4) emptyCache
                     (Some Store.emptyTables) (lookup_empty _) _)).
    right. exists Store.emptyTables. split; [reflexivity|]. apply Forall_nil_2.
  - refine (proj1 (getPerformance_synthetic "PAL" (mkDate 2024 4) emptyCache
                     None (lookup_empty _) _)).
    by left.
Defined.

(** *** GET /api/trends/:districtCode *)

(** [new Date(year, m, 1)] is the month of rank [12 * year + m]. *)
Lemma monthIndex_newDate (year m : Z) :
  monthIndex (newDate year m) = year * 12 + m.
Proof.
  unfold monthIndex, newDate. cbn [getFullYear getMonth].
  pose proof (Z.div_mod m 12 ltac:(lia)). lia.
Qed.

Lemma getTrends_hit (districtCode : string) (now : Date)
    (cache : Cache) (db : Db) (cached : list Trend) :
  cachedTrends cache !! districtCode = Some cached ->
  getTrends districtCode now cache db = (json (PTrends cached), cache).
Proof. intros H. unfold getTrends. by rewrite H. Qed.

(** What the handler computes when nothing is cached and the query
    succeeds. *)
Lemma getTrends_miss (districtCode : string) (now : Date)
    (cache : Cache) (t : Store.Tables) :
  cachedTrends cache !! districtCode = None ->
  (getTrends districtCode now cache (Some t)).1 =
    json (PTrends
            match Store.selectRecent districtCode 7 t with
            | [] => fallbackTrends districtCode now
            | rows => trendOfRow <$> reverse rows
            end).
Proof.
  intros H. unfold getTrends. rewrite H. cbn [fst].
  destruct (Store.selectRecent districtCode 7 t); [done|].
  by rewrite fmap_reverse.
Qed.

(** C7, as stated, fails.  A district without stored rows is asked for in
    April 2024, which caches the seven synthetic entries of October 2023 to
    April 2024; asked for again in May 2024 while that entry is alive, the
    endpoint returns those same entries, which do not cover the current
    month. *)
Lemma getTrends_stale_cache :
  let april := mkDate 2024 3 in
  let may := mkDate 2024 4 in
  let db : Db := Some Store.emptyTables in
  let cache := (getTrends "PAL" april emptyCache db).2 in
  exists trends,
    (getTrends "PAL" may cache db).1 = json (PTrends trends)
    /\ month <$> trends = ["Oct"; "Nov"; "Dec"; "Jan"; "Feb"; "Mar"; "Apr"]
    /\ year <$> trends = [2023; 2023; 2023; 2024; 2024; 2024; 2024]
    /\ trends <> fallbackTrends "PAL" may.
Proof.
  intros april may db cache. exists (fallbackTrends "PAL" april).
  split; [|split; [reflexivity|split; [reflexivity|]]].
  - subst cache. unfold getTrends at 2. cbn [cachedTrends emptyCache].
    rewrite lookup_empty. cbn [db Store.selectRecent snd].
    erewrite getTrends_hit; [done|].
    cbn [setTrends cachedTrends]. by rewrite lookup_insert_eq.
  - intros Heq. apply (f_equal (fmap month)) in Heq. discriminate Heq.
Qed.

(** C7, amended.  When the cache holds no entry for the district and the
    query succeeds, the endpoint answers 200 with at most seven entries.  If
    the district has stored rows, they are the up to seven most recent ones
    (by year, then month), each mapped to its entry, oldest first.  If it has
    none, they are the seven synthetic entries of the current month and of
    the six months before it, oldest first.  When the cache holds an entry,
    that entry is the answer; when it holds none and the query fails, the
    answer is a 500. *)
Theorem getTrends_sequence (districtCode : string) (now : Date)
    (cache : Cache) (t : Store.Tables) :
  cachedTrends cache !! districtCode = None ->
  let stored :=
    filter (fun r => Store.district_code r = districtCode) (Store.performance t) in
  let rows := Store.selectRecent districtCode 7 t in
  exists trends,
    (getTrends districtCode now cache (Some t)).1 = json (PTrends trends)
    /\ (length trends <= 7)%nat
    /\ (stored <> [] ->
          trends = trendOfRow <$> reverse rows
          /\ StronglySorted (flip Store.recentFirst) (reverse rows)
          /\ exists older,
               rows ++ older ≡ₚ stored
               /\ StronglySorted Store.recentFirst (rows ++ older)
               /\ (older <> [] -> length rows = 7%nat))
    /\ (stored = [] ->
          trends = fallbackTrend districtCode now <$> [6; 5; 4; 3; 2; 1; 0]
          /\ length trends = 7%nat
          /\ forall i,
               let d := newDate (getFullYear now) (getMonth now - i) in
               month (fallbackTrend districtCode now i) = monthName (getMonth d)
               /\ year (fallbackTrend districtCode now i) = getFullYear d
               /\ monthIndex d = monthIndex now - i)
    /\ (forall cache' db' cached,
          cachedTrends cache' !! districtCode = Some cached ->
          (getTrends districtCode now cache' db').1 = json (PTrends cached))
    /\ (getTrends districtCode now cache None).1 =
         mkResponse 500 (PError "Failed to fetch trends").
Proof.
  intros Hmiss stored rows.
  assert (Hfail : (getTrends districtCode now cache None).1 =
                  mkResponse 500 (PError "Failed to fetch trends"))
    by (unfold getTrends; by rewrite Hmiss).
  destruct (StoreFacts.selectRecent_spec districtCode 7 t)
    as (Hlen & Hsorted & older & Hperm & Hall & Hfull).
  pose proof (StoreFacts.selectRecent_nil_iff districtCode 7 t ltac:(lia))
    as Hnil.
  pose proof (getTrends_miss districtCode now cache t Hmiss) as Hresp.
  fold stored in Hperm, Hnil. subst rows.
  destruct (Store.selectRecent districtCode 7 t) as [|r rows] eqn:E.
  - assert (Hst : stored = []) by by apply Hnil.
    exists (fallbackTrends districtCode now).
    split; [done|]. split; [cbn; lia|]. split; [done|]. split.
    + intros _. split; [done|]. split; [done|].
      intros i d. split; [done|]. split; [done|].
      subst d. rewrite monthIndex_newDate. unfold monthIndex. lia.
    + split; [|done].
      intros cache' db' cached Hhit. by rewrite (getTrends_hit _ _ _ _ _ Hhit).
  - assert (Hst : stored <> []) by (intros Hst; by apply Hnil in Hst).
    exists (trendOfRow <$> reverse (r :: rows)).
    split; [done|]. split; [by rewrite length_fmap, length_reverse|].
    split; [|split; [done|]].
    + intros _. split; [done|].
      split; [by apply StoreFacts.StronglySorted_reverse|]. by exists older.
    + split; [|done].
      intros cache' db' cached Hhit. by rewrite (getTrends_hit _ _ _ _ _ Hhit).
Qed.

(** The amended claim on a table with two rows of the district asked for,
    stored newest first, and a row of another district. *)
Lemma getTrends_sequence_witness :
  let data := metricsOf (Some 1234) in
  let t := Store.mkTables []
             [ Store.mkPerfRow "PUN" 4 2024 data 0;
               Store.mkPerfRow "KOL" 4 2024 data 0;
               Store.mkPerfRow "PUN" 3 2024 data 0 ] in
  (getTrends "PUN" (mkDate 2024 5) emptyCache (Some t)).1 =
    json (PTrends [ mkTrend "Apr" 2024 (Some 41234) (Some 114) (Some 484);
                    mkTrend "May" 2024 (Some 41234) (Some 114) (Some 484) ]).
Proof.
  intros data t.
  destruct (getTrends_sequence "PUN" (mkDate 2024 5) emptyCache t
              (lookup_empty _)) as (trends & Hresp & _ & Hrows & _).
  rewrite Hresp. destruct Hrows as (-> & _); [done|]. reflexivity.
Defined.

End ApiFacts.

(** ** The bootstrap routine *)

Module BootstrapFacts.
Import Generator Directory Store Bootstrap.

(** *** Seeding the districts *)

Lemma insertDistrict_present (d : District) (rows : list DistrictRow) :
  code d ∈ d_code <$> rows -> insertDistrict d rows = rows.
Proof. intros H. unfold insertDistrict. by rewrite decide_True. Qed.

Lemma insertDistrict_prefix (d : District) (rows : list DistrictRow) :
  rows `prefix_of` insertDistrict d rows.
Proof.
  unfold insertDistrict. case_decide; [done|]. by apply prefix_app_r.
Qed.

Lemma insertDistrict_codes (d : District) (rows : list DistrictRow) (c : string) :
  c ∈ d_code <$> rows \/ c = code d -> c ∈ d_code <$> insertDistrict d rows.
Proof.
  unfold insertDistrict. case_decide as Hin.
  - by intros [H| ->].
  - rewrite fmap_app, elem_of_app. intros [H| ->]; [by left|right].
    cbn. apply list_elem_of_here.
Qed.

Lemma insertDistrict_NoDup (d : District) (rows : list DistrictRow) :
  NoDup (d_code <$> rows) -> NoDup (d_code <$> insertDistrict d rows).
Proof.
  intros Hnd. unfold insertDistrict. case_decide as Hin; [done|].
  rewrite fmap_app. apply NoDup_app. split; [done|]. split.
  - intros c Hc ->%list_elem_of_singleton. done.
  - apply NoDup_singleton.
Qed.

Lemma seed_codes (directory : list District) (rows : list DistrictRow) (c : string) :
  c ∈ d_code <$> rows \/ c ∈ code <$> directory ->
  c ∈ d_code <$> foldl (fun acc d => insertDistrict d acc) rows directory.
Proof.
  revert rows. induction directory as [|d l IH]; intros rows.
  - intros [H|H]; [done|by apply elem_of_nil in H].
  - cbn [foldl]. intros [H|H]; apply IH.
    + left. apply insertDistrict_codes. by left.
    + rewrite fmap_cons in H. apply elem_of_cons in H as [->|H]; [|by right].
      left. apply insertDistrict_codes. by right.
Qed.

Lemma seed_noop (directory : list District) (rows : list DistrictRow) :
  Forall (fun d => code d ∈ d_code <$> rows) directory ->
  foldl (fun acc d => insertDistrict d acc) rows directory = rows.
Proof.
  induction 1 as [|d l Hd _ IH]; [done|].
  cbn [foldl]. by rewrite insertDistrict_present.
Qed.

Lemma seed_prefix (directory : list District) (rows : list DistrictRow) :
  rows `prefix_of` foldl (fun acc d => insertDistrict d acc) rows directory.
Proof.
  revert rows. induction directory as [|d l IH]; intros rows; [done|].
  cbn [foldl]. etrans; [apply insertDistrict_prefix|apply IH].
Qed.

Lemma seed_NoDup (directory : list District) (rows : list DistrictRow) :
  NoDup (d_code <$> rows) ->
  NoDup (d_code <$> foldl (fun acc d => insertDistrict d acc) rows directory).
Proof.
  revert rows. induction directory as [|d l IH]; intros rows Hnd; [done|].
  cbn [foldl]. by apply IH, insertDistrict_NoDup.
Qed.

(** Seeding a table that has been seeded changes nothing. *)
Lemma seedDistricts_idempotent (rows : list DistrictRow) :
  seedDistricts (seedDistricts rows) = seedDistricts rows.
Proof.
  unfold seedDistricts at 1. apply seed_noop.
  apply Forall_forall. intros d Hd. unfold seedDistricts.
  apply seed_codes. right. by apply list_elem_of_fmap_2.
Qed.

(** *** Backfilling the performance table *)

Lemma perfChecks_key (a b : PerfRow) :
  perfKey a = perfKey b -> perfChecks a = perfChecks b.
Proof. unfold perfKey, perfChecks. by intros [= _ -> ->]. Qed.

Lemma insertPerformance_present (r : PerfRow) (rows : list PerfRow) :
  perfChecks r = true -> perfKey r ∈ perfKey <$> rows ->
  insertPerformance r rows = Some rows.
Proof.
  intros Hc Hin. unfold insertPerformance. by rewrite Hc, decide_True.
Qed.

Lemma insertPerformance_absent (r : PerfRow) (rows : list PerfRow) :
  perfChecks r = true -> perfKey r ∉ perfKey <$> rows ->
  insertPerformance r rows = Some (rows ++ [r]).
Proof.
  intros Hc Hin. unfold insertPerformance. by rewrite Hc, decide_False.
Qed.

(** What a successful insert has done. *)
Lemma insertPerformance_Some (r : PerfRow) (rows rows' : list PerfRow) :
  insertPerformance r rows = Some rows' ->
  perfChecks r = true /\
  perfKey r ∈ perfKey <$> rows' /\
  (rows' = rows \/ (rows' = rows ++ [r] /\ perfKey r ∉ perfKey <$> rows)).
Proof.
  unfold insertPerformance. destruct (perfChecks r); [|done].
  case_decide as Hin; intros [= <-]; split; try done.
  - split; [done|by left].
  - split; [|by right]. rewrite fmap_app, elem_of_app. right.
    apply list_elem_of_here.
Qed.

(** What a successful run of inserts has done: every new row passed the
    checks and has its key in the table; the rows that were there are still
    there, unchanged and in place, followed by rows whose keys were not
    there; unique keys stay unique. *)
Lemma insertAll_Some (new : list PerfRow) :
  forall rows rows',
    insertAll new rows = Some rows' ->
    Forall (fun r => perfChecks r = true /\ perfKey r ∈ perfKey <$> rows') new
    /\ exists added,
         rows' = rows ++ added
         /\ Forall (fun r => perfKey r ∉ perfKey <$> rows) added
         /\ (NoDup (perfKey <$> rows) -> NoDup (perfKey <$> rows')).
Proof.
  induction new as [|r new IH]; intros rows rows' Hrun.
  - injection Hrun as <-. split; [done|]. exists []. by rewrite app_nil_r.
  - cbn [insertAll] in Hrun.
    destruct (insertPerformance r rows) as [rows1|] eqn:Hins; [|done].
    cbn in Hrun. apply insertPerformance_Some in Hins as (Hc & Hk & Hcase).
    destruct (IH _ _ Hrun) as (Hall & added & -> & Hfresh & Hnd).
    split.
    + constructor; [|done]. split; [done|].
      rewrite fmap_app, elem_of_app. by left.
    + destruct Hcase as [->|[-> Hnew]].
      * by exists added.
      * exists (r :: added). split; [by rewrite <- app_assoc|]. split.
        -- constructor; [done|].
           eapply Forall_impl; [exact Hfresh|]. intros x Hx Hin. apply Hx.
           rewrite fmap_app, elem_of_app. by left.
        -- intros Hnd0. apply Hnd. rewrite fmap_app. apply NoDup_app.
           split; [done|]. split; [|apply NoDup_singleton].
           intros k Hk0 ->%list_elem_of_singleton. done.
Qed.

(** Rows that pass the checks and whose keys are all in the table leave it
    as it is. *)
Lemma insertAll_noop (new rows : list PerfRow) :
  Forall (fun r => perfChecks r = true /\ perfKey r ∈ perfKey <$> rows) new ->
  insertAll new rows = Some rows.
Proof.
  induction 1 as [|r new [Hc Hk] _ IH]; [done|].
  cbn [insertAll]. by rewrite insertPerformance_present.
Qed.

(** The key of a backfilled row does not depend on the database clock. *)
Lemma backfillRows_keys (clock : string -> Api.Date) (stamp stamp' : Z)
    (codes : list string) :
  perfKey <$> (codes ≫= backfillRows clock stamp) =
  perfKey <$> (codes ≫= backfillRows clock stamp').
Proof.
  induction codes as [|c codes IH]; [done|].
  rewrite !bind_cons, !fmap_app, IH. done.
Qed.

(** [initDatabase] with its queries spelled out. *)
Lemma initDatabase_unfold (clock : string -> Api.Date) (stamp : Z) (t : Tables) :
  initDatabase clock stamp t =
    perf' ← insertAll
              ((d_code <$> seedDistricts (districts t)) ≫= backfillRows clock stamp)
              (performance t);
    Some (mkTables (seedDistricts (districts t)) perf').
Proof. reflexivity. Qed.

(** A second run whose periods are those of the first finds every key in
    place. *)
Lemma backfill_noop (clock : string -> Api.Date) (stamp stamp' : Z)
    (codes : list string) (rows : list PerfRow) :
  Forall (fun r => perfChecks r = true /\ perfKey r ∈ perfKey <$> rows)
         (codes ≫= backfillRows clock stamp) ->
  insertAll (codes ≫= backfillRows clock stamp') rows = Some rows.
Proof.
  intros Hall. apply insertAll_noop.
  set (Q := fun k : string * Z * Z =>
              (let '(_, m, y) := k in (0 <=? m) && (m <=? 11) && (2024 <=? y)) = true
              /\ k ∈ perfKey <$> rows).
  assert (HQ : forall r, (perfChecks r = true /\ perfKey r ∈ perfKey <$> rows)
                         <-> Q (perfKey r)) by done.
  apply (Forall_iff _ _ _ HQ) in Hall. apply (Forall_iff _ _ _ HQ).
  change (Forall (Q ∘ perfKey) (codes ≫= backfillRows clock stamp)) in Hall.
  change (Forall (Q ∘ perfKey) (codes ≫= backfillRows clock stamp')).
  rewrite <- Forall_fmap in Hall |- *.
  by rewrite (backfillRows_keys clock stamp' stamp).
Qed.




End BootstrapFacts.
